(** * OpenNSA: topology path-finder, aggregator and NSI2 provider

    A shallow embedding of [opennsa/topology/topology.py],
    [opennsa/aggregator.py] and [opennsa/protocols/nsi2/provider.py]
    (Python 2), with the properties of the specification stated and
    proved over it. *)

From Stdlib Require Import String Ascii List ZArith Lia Bool Arith Permutation Sorted.
From stdpp Require Import base option list gmap strings pretty.
Import ListNotations.

Local Open Scope Z_scope.

(** ** Python values, exceptions and results *)

Module Py.

(** The exceptions the modelled code raises.  [TopologyError] and the
    connection errors are classes of [opennsa.error]; the others are
    Python built-ins. *)
Inductive Exn : Type :=
| TopologyError (msg : string)
| ConnectionExistsError (msg : string)
| ConnectionNonExistentError (msg : string)
| ConnectionGoneError (msg : string)
| ConnectionCreateError (msg : string)
| InternalServerError (msg : string)
| NotImplementedError (msg : string)
| AssertionError (msg : string)
| IndexError (msg : string)
| KeyError (msg : string)
| NameError (msg : string)
| TypeError (msg : string)
| AttributeError (msg : string)
| OtherError (cls msg : string).

(** [getErrorMessage()] of a failure wrapping the exception. *)
Definition getErrorMessage (e : Exn) : string :=
  match e with
  | TopologyError m | ConnectionExistsError m | ConnectionNonExistentError m
  | ConnectionGoneError m | ConnectionCreateError m | InternalServerError m
  | NotImplementedError m | AssertionError m | IndexError m | KeyError m
  | NameError m | TypeError m | AttributeError m | OtherError _ m => m
  end.

(** A computation either returns a value or raises. *)
Inductive Result (A : Type) : Type :=
| Ok (a : A)
| Raise (e : Exn).
Arguments Ok {A} a.
Arguments Raise {A} e.

Definition bind {A B} (r : Result A) (k : A -> Result B) : Result B :=
  match r with
  | Ok a => k a
  | Raise e => Raise e
  end.

(** [[ f(x) for x in xs ]] where [f] may raise: left to right, the first
    exception escapes. *)
Fixpoint mapM {A B} (f : A -> Result B) (xs : list A) : Result (list B) :=
  match xs with
  | [] => Ok []
  | x :: xs' =>
      bind (f x) (fun y => bind (mapM f xs') (fun ys => Ok (y :: ys)))
  end.

(** [[ x for x in xs if p(x) ]] where [p] may raise. *)
Fixpoint filterM {A} (p : A -> Result bool) (xs : list A) : Result (list A) :=
  match xs with
  | [] => Ok []
  | x :: xs' =>
      bind (p x) (fun b =>
      bind (filterM p xs') (fun ys => Ok (if b then x :: ys else ys)))
  end.

(** [c.isdigit()] on a one-character byte string. *)
Definition isdigit (c : ascii) : bool :=
  let n := Z.of_nat (nat_of_ascii c) in (48 <=? n) && (n <=? 57).

(** [ord(c)] *)
Definition ord (c : ascii) : Z := Z.of_nat (nat_of_ascii c).

(** [int(c)] for a one-character string holding a decimal digit. *)
Definition int_of_digit (c : ascii) : Z := ord c - 48.

(** [l[-1:]] *)
Definition slice_last {A} (l : list A) : list A :=
  match rev l with
  | [] => []
  | x :: _ => [x]
  end.

(** [s[-1]] *)
Definition last_char (s : string) : Result ascii :=
  match rev (list_ascii_of_string s) with
  | [] => Raise (IndexError "string index out of range")
  | c :: _ => Ok c
  end.

(** [s.endswith(suffix)] *)
Definition endswith (s suffix : string) : bool :=
  let n := String.length s in
  let m := String.length suffix in
  if (n <? m)%nat then false
  else String.eqb (substring (n - m) m s) suffix.

(** [x in xs] for a list of strings. *)
Definition str_in (x : string) (xs : list string) : bool :=
  existsb (String.eqb x) xs.

End Py.

Import Py.

Notation "x <- c1 ;; c2" := (Py.bind c1 (fun x => c2))
  (at level 100, c1 at next level, right associativity).

(** ** The topology ([opennsa/topology/topology.py]) *)

Module Topology.

(** An STP names a port of a network. *)
Record STP : Type := mkSTP {
  stp_network : string;
  stp_endpoint : string
}.

(** A network endpoint (port): an STP with an optional pairing
    [dest_stp] to a port of a neighbouring network and an optional
    available capacity. *)
Record Endpoint : Type := mkEndpoint {
  network : string;
  endpoint : string;
  dest_stp : option STP;
  available_capacity : option Z
}.

Record Network : Type := mkNetwork {
  name : string;
  endpoints : list Endpoint
}.

(** [nsa.Link(stp1, stp2)]: a connection inside one network. *)
Record Link : Type := mkLink {
  stp1 : Endpoint;
  stp2 : Endpoint
}.

(** A route is the list of links [findPathEndpoints] builds;
    [nsa.Path(np)] wraps such a list. *)
Definition Route : Type := list Link.

Record Path : Type := mkPath {
  links : Route
}.

Record Bandwidth : Type := mkBandwidth {
  minimum : option Z
}.

Record Topology : Type := mkTopology {
  networks : list Network
}.

(** [Topology()] *)
Definition empty : Topology := mkTopology [].

(** [addNetwork]: the topology after the call, or [TopologyError]. *)
Definition addNetwork (self : Topology) (nw : Network) : Result Topology :=
  if str_in (name nw) (map name (networks self)) then
    Raise (TopologyError ("Network name must be unique (name: " +:+ name nw +:+ ")"))
  else
    Ok (mkTopology (networks self ++ [nw])).

Fixpoint getNetwork_loop (nws : list Network) (network_name : string) : Result Network :=
  match nws with
  | [] => Raise (TopologyError ("No network named " +:+ network_name))
  | nw :: rest =>
      if String.eqb (name nw) network_name then Ok nw
      else getNetwork_loop rest network_name
  end.

Definition getNetwork (self : Topology) (network_name : string) : Result Network :=
  getNetwork_loop (networks self) network_name.

Fixpoint getEndpoint_loop (eps : list Endpoint) (err : Exn) (ep_name : string) : Result Endpoint :=
  match eps with
  | [] => Raise err
  | ep :: rest =>
      if String.eqb (endpoint ep) ep_name then Ok ep
      else getEndpoint_loop rest err ep_name
  end.

Definition getEndpoint (self : Topology) (nw_name ep_name : string) : Result Endpoint :=
  nw <- getNetwork self nw_name ;;
  getEndpoint_loop (endpoints nw)
    (TopologyError ("No endpoint named " +:+ ep_name +:+ " for network " +:+ nw_name))
    ep_name.

(** Modelled from the spec: [nsa.Network.getEndpoint] is not part of the
    sources; section 4.1 gives the port lookup of a network as failing
    with [TopologyError] if the port is unknown.  It is the scan of
    [Topology.getEndpoint] over the network's own endpoints. *)
Definition Network_getEndpoint (nw : Network) (ep_name : string) : Result Endpoint :=
  getEndpoint_loop (endpoints nw)
    (TopologyError ("No such endpoint (" +:+ ep_name +:+ ")")) ep_name.

(** *** [_pruneMismatchedPorts] *)

(** The local function [vlan(endpoint)]. *)
Definition vlan (ep_name : string) : Result Z :=
  let vlan_id := slice_last (List.filter isdigit (list_ascii_of_string ep_name)) in
  v <- match vlan_id with
       | [] => c <- last_char ep_name ;; Ok (ord c)
       | d :: _ => Ok (int_of_digit d)
       end ;;
  Ok (if 3 <? v then v - 4 else v).

(** The local function [canConnect(source_stp, dest_stp)]. *)
Definition canConnect (source_stp dest_stp : Endpoint) : Result bool :=
  if negb (String.eqb (network source_stp) (network dest_stp)) then
    Raise (AssertionError "Cannot connect-test STPs from different networks")
  else if negb (endswith (network source_stp) ".ets") then Ok true
  else if str_in (network source_stp) ["northernlight.ets"; "netherlight.ets"] then Ok true
  else
    source_vlan <- vlan (endpoint source_stp) ;;
    dest_vlan <- vlan (endpoint dest_stp) ;;
    Ok (source_vlan =? dest_vlan).

(** [isValidRoute]: the lambda reads the variable [np] of the enclosing
    list comprehension, which in Python 2 is the route under test. *)
Definition isValidRoute (np : Route) : Result bool :=
  bs <- mapM (fun link => canConnect (stp1 link) (stp2 link)) np ;;
  Ok (forallb (fun b => b) bs).

Definition _pruneMismatchedPorts (network_paths : list Route) : Result (list Route) :=
  filterM isValidRoute network_paths.

(** *** [filterBandwidth] *)

Definition lacks_capacity (capacity : option Z) (bandwidths : Bandwidth) : bool :=
  match capacity, minimum bandwidths with
  | Some c, Some m => c <? m
  | _, _ => false
  end.

Fixpoint hasBandwidth (route : Route) (bandwidths : Bandwidth) : bool :=
  match route with
  | [] => true
  | sdp :: rest =>
      if lacks_capacity (available_capacity (stp1 sdp)) bandwidths then false
      else if lacks_capacity (available_capacity (stp2 sdp)) bandwidths then false
      else hasBandwidth rest bandwidths
  end.

Definition filterBandwidth (paths_sdps : list Route) (bandwidths : Bandwidth) : list Route :=
  List.filter (fun route => hasBandwidth route bandwidths) paths_sdps.

(** *** [findPathEndpoints]

    The recursion of the source is on the growing list of visited
    networks; here it is on a fuel counter, and [None] means that the
    fuel ran out.  [findPathEndpoints_fuel] shows that the fuel
    [findPaths] passes always suffices. *)

Definition visited_or_init (source_stp : STP) (visited_networks : option (list string)) : list string :=
  match visited_networks with
  | None => [stp_network source_stp]
  | Some v => v
  end.

(** The loop [for ep in snw.endpoints], with the state it updates
    ([visited_networks], set on the first paired endpoint, and
    [routes]); [recurse] is the recursive call. *)
Fixpoint findPathEndpoints_loop (self : Topology)
    (recurse : STP -> STP -> option (list string) -> option (Result (list Route)))
    (source_stp dest_stp : STP) (eps : list Endpoint)
    (visited_networks : option (list string)) (routes : list Route)
    {struct eps} : option (Result (list Route)) :=
  match eps with
  | [] => Some (Ok routes)
  | ep :: eps' =>
      match Topology.dest_stp ep with
      | None =>
          findPathEndpoints_loop self recurse source_stp dest_stp eps' visited_networks routes
      | Some peer =>
          let visited := visited_or_init source_stp visited_networks in
          if str_in (stp_network peer) visited then
            findPathEndpoints_loop self recurse source_stp dest_stp eps' (Some visited) routes
          else
            match getEndpoint self (stp_network source_stp) (stp_endpoint source_stp) with
            | Raise e => Some (Raise e)
            | Ok source_ep =>
                if String.eqb (stp_network peer) (stp_network dest_stp) then
                  let sp := mkLink source_ep ep in
                  match getEndpoint self (stp_network peer) (stp_endpoint peer) with
                  | Raise e => Some (Raise e)
                  | Ok last_source_ep =>
                      match getEndpoint self (stp_network dest_stp) (stp_endpoint dest_stp) with
                      | Raise e => Some (Raise e)
                      | Ok last_dest_ep =>
                          let sp_end := mkLink last_source_ep last_dest_ep in
                          findPathEndpoints_loop self recurse source_stp dest_stp eps'
                            (Some visited) (routes ++ [[sp; sp_end]])
                      end
                  end
                else
                  let nvn := visited ++ [stp_network peer] in
                  match recurse peer dest_stp (Some nvn) with
                  | None => None
                  | Some (Raise e) => Some (Raise e)
                  | Some (Ok subroutes) =>
                      findPathEndpoints_loop self recurse source_stp dest_stp eps'
                        (Some visited)
                        (routes ++ map (fun sr => mkLink source_ep ep :: sr) subroutes)
                  end
            end
      end
  end.

Fixpoint findPathEndpoints (fuel : nat) (self : Topology) (source_stp dest_stp : STP)
    (visited_networks : option (list string)) {struct fuel} : option (Result (list Route)) :=
  match fuel with
  | O => None
  | S fuel' =>
      match getNetwork self (stp_network source_stp) with
      | Raise e => Some (Raise e)
      | Ok snw =>
          findPathEndpoints_loop self (findPathEndpoints fuel' self)
            source_stp dest_stp (endpoints snw) visited_networks []
      end
  end.

(** *** [findPaths] *)

Definition findPaths_fuel (self : Topology) : nat :=
  S (S (length (networks self))).

Definition findPaths (self : Topology) (source_stp dest_stp : STP)
    (bandwidth : option Bandwidth) : option (Result (list Path)) :=
  match getNetwork self (stp_network source_stp) with
  | Raise e => Some (Raise e)
  | Ok snw =>
  match Network_getEndpoint snw (stp_endpoint source_stp) with
  | Raise e => Some (Raise e)
  | Ok sep =>
  match getNetwork self (stp_network dest_stp) with
  | Raise e => Some (Raise e)
  | Ok dnw =>
  match Network_getEndpoint dnw (stp_endpoint dest_stp) with
  | Raise e => Some (Raise e)
  | Ok dep =>
      let found :=
        (* [snw == dnw]: both are the first network of their name, so
           they are the same object exactly when the names agree *)
        if String.eqb (name snw) (name dnw) then Some (Ok [[mkLink sep dep]])
        else findPathEndpoints (findPaths_fuel self) self source_stp dest_stp None in
      match found with
      | None => None
      | Some (Raise e) => Some (Raise e)
      | Some (Ok network_paths) =>
          let network_paths :=
            match bandwidth with
            | Some bw => filterBandwidth network_paths bw
            | None => network_paths
            end in
          Some (network_paths <- _pruneMismatchedPorts network_paths ;;
                Ok (map mkPath network_paths))
      end
  end end end end.

End Topology.

(** ** Twisted deferreds, as far as the modelled code observes them *)

Module Twisted.

(** The outcome of a fired [Deferred]: a value, or a [Failure] wrapping
    an exception.  [DeferredList(defs, consumeErrors=True)] yields the
    list of pairs [(success, result)]; [success] is [True] exactly when
    the result is not a failure, so a pair is one [Outcome]. *)
Inductive Outcome (A : Type) : Type :=
| Succeeded (a : A)
| Failed (f : Exn).
Arguments Succeeded {A} a.
Arguments Failed {A} f.

(** [r[0]] of a pair of a [DeferredList] result. *)
Definition success {A} (r : Outcome A) : bool :=
  match r with
  | Succeeded _ => true
  | Failed _ => false
  end.

(** [[ v for success, v in results if success ]] *)
Fixpoint successes_of {A} (results : list (Outcome A)) : list A :=
  match results with
  | [] => []
  | Succeeded a :: rest => a :: successes_of rest
  | Failed _ :: rest => successes_of rest
  end.

(** [[ f for success, f in results if not success ]] *)
Fixpoint failures_of {A} (results : list (Outcome A)) : list Exn :=
  match results with
  | [] => []
  | Succeeded _ :: rest => failures_of rest
  | Failed f :: rest => f :: failures_of rest
  end.

(** [all(xs)] *)
Definition all (xs : list bool) : bool := forallb (fun b => b) xs.

End Twisted.

Import Twisted.

(** ** The aggregator ([opennsa/aggregator.py]) *)

Module Aggregator.

Import Topology.

(** Modelled from the spec: the state constants of [opennsa.state],
    which is not part of the sources; section 4.2 lists the states of
    the four axes. *)
Inductive State : Type :=
| INITIAL | RESERVE_CHECKING | RESERVE_HELD | RESERVE_COMMITTING
| RESERVED | RESERVE_FAILED
| SCHEDULED | PROVISIONING | PROVISIONED | RELEASING
| INACTIVE | ACTIVATING | ACTIVE | DEACTIVATING
| CREATED | TERMINATING | TERMINATED | TERMINATED_FAILED | TERMINATED_ENDTIME.

Definition State_eqb (a b : State) : bool :=
  match a, b with
  | INITIAL, INITIAL | RESERVE_CHECKING, RESERVE_CHECKING
  | RESERVE_HELD, RESERVE_HELD | RESERVE_COMMITTING, RESERVE_COMMITTING
  | RESERVED, RESERVED | RESERVE_FAILED, RESERVE_FAILED
  | SCHEDULED, SCHEDULED | PROVISIONING, PROVISIONING
  | PROVISIONED, PROVISIONED | RELEASING, RELEASING
  | INACTIVE, INACTIVE | ACTIVATING, ACTIVATING | ACTIVE, ACTIVE
  | DEACTIVATING, DEACTIVATING | CREATED, CREATED
  | TERMINATING, TERMINATING | TERMINATED, TERMINATED
  | TERMINATED_FAILED, TERMINATED_FAILED
  | TERMINATED_ENDTIME, TERMINATED_ENDTIME => true
  | _, _ => false
  end.

(** The functions of [opennsa.state] the aggregator calls. *)
Inductive Transition : Type :=
| reserveChecking | reserveHeld | reserveCommit | reserved
| provisioning | provisioned | scheduled
| terminating | terminated | terminatedFailed.

(** [database.ServiceConnection]: the parent record, with the columns
    [reserve] fills in; [id] is the key of the row. *)
Record ServiceConnection : Type := mkServiceConnection {
  id : nat;
  connection_id : string;
  revision : Z;
  global_reservation_id : option string;
  description : option string;
  requester_nsa : string;
  reserve_time : Z;
  reservation_state : State;
  provision_state : State;
  activation_state : State;
  lifecycle_state : State;
  source_network : string;
  source_port : string;
  source_labels : list string;
  dest_network : string;
  dest_port : string;
  dest_labels : list string;
  start_time : Z;
  end_time : Z;
  bandwidth : Z
}.

(** [database.Subconnection]: the record of one leg. *)
Record Subconnection : Type := mkSubconnection {
  sub_provider_nsa : string;
  sub_connection_id : string;
  sub_local_link : bool;
  sub_revision : Z;
  sub_service_connection_id : nat;
  sub_order_id : nat;
  sub_reservation_state : State;
  sub_provision_state : State;
  sub_activation_state : State;
  sub_lifecycle_state : State;
  sub_source_network : string;
  sub_source_port : string;
  sub_dest_network : string;
  sub_dest_port : string
}.

(** Modelled from the spec: the connection store of [opennsa.database]
    (not part of the sources), section 2: the two tables with find by
    connection id and parent to children navigation. *)
Record Store : Type := mkStore {
  service_connections : list ServiceConnection;
  subconnections : list Subconnection
}.

(** [registry] events and client systems. *)
Inductive Event : Type :=
| RESERVE | RESERVE_COMMIT | PROVISION | RELEASE | TERMINATE | QUERY.

Inductive Locality : Type :=
| NSI2_LOCAL | NSI2_REMOTE | NSI2_AGGREGATOR.

(** One call of a handler of the service registry:
    [handler(self.nsa_, sc.provider_nsa, None, sc.connection_id)]. *)
Record Dispatch : Type := mkDispatch {
  d_event : Event;
  d_locality : Locality;
  d_requester : string;
  d_provider : string;
  d_connection_id : string
}.

(** The generator of [random]: the stream of its draws and a cursor. *)
Record Random : Type := mkRandom {
  draws : nat -> nat;
  cursor : nat
}.

(** What an operation of the aggregator can read and change: the
    store, the handler calls issued so far and the random generator. *)
Record World : Type := mkWorld {
  store : Store;
  dispatched : list Dispatch;
  random : Random
}.

(** An operation runs in a world and returns or raises; the changes it
    made before raising stay. *)
Definition M (A : Type) : Type := World -> Result A * World.

Definition ret {A} (a : A) : M A := fun w => (Ok a, w).

Definition raise {A} (e : Exn) : M A := fun w => (Raise e, w).

Definition lift {A} (r : Result A) : M A := fun w => (r, w).

Definition bindM {A B} (m : M A) (k : A -> M B) : M B :=
  fun w =>
    match m w with
    | (Ok a, w') => k a w'
    | (Raise e, w') => (Raise e, w')
    end.

Notation "x <~ c1 ;; c2" := (bindM c1 (fun x => c2))
  (at level 100, c1 at next level, right associativity).

(** A loop collecting the results of its body. *)
Fixpoint forM {A B} (xs : list A) (body : A -> M B) : M (list B) :=
  match xs with
  | [] => ret []
  | x :: rest => y <~ body x ;; ys <~ forM rest body ;; ret (y :: ys)
  end.

(** [[ body for _ in range(n) ]] *)
Fixpoint repeatM {A} (n : nat) (body : M A) : M (list A) :=
  match n with
  | O => ret []
  | S n' => y <~ body ;; ys <~ repeatM n' body ;; ret (y :: ys)
  end.

(** Acting on the store only. *)
Definition on_store {A} (f : Store -> A * Store) : M A :=
  fun w =>
    let (a, s) := f (store w) in
    (Ok a, mkWorld s (dispatched w) (random w)).

(** [random.choice(seq)] *)
Definition random_choice (seq : list ascii) : M ascii :=
  fun w =>
    match seq with
    | [] => (Raise (IndexError "list index out of range"), w)
    | c :: _ =>
        let r := random w in
        let i := (draws r (cursor r) mod length seq)%nat in
        (Ok (nth i seq c),
         mkWorld (store w) (dispatched w) (mkRandom (draws r) (S (cursor r))))
    end.

(** [string.hexdigits] *)
Definition hexdigits : string := "0123456789abcdefABCDEF".

(** [database.ServiceConnection.exists(['connection_id = ?', connection_id])] *)
Definition ServiceConnection_exists (cid : string) : M bool :=
  fun w =>
    (Ok (existsb (fun c => String.eqb (connection_id c) cid)
           (service_connections (store w))), w).

(** [database.ServiceConnection.findBy(connection_id=connection_id)] *)
Definition ServiceConnection_findBy (cid : string) : M (list ServiceConnection) :=
  fun w =>
    (Ok (List.filter (fun c => String.eqb (connection_id c) cid)
           (service_connections (store w))), w).

(** [conn.subconnections.get()] *)
Definition subconnections_get (conn : ServiceConnection) : M (list Subconnection) :=
  fun w =>
    (Ok (List.filter (fun sc => Nat.eqb (sub_service_connection_id sc) (id conn))
           (subconnections (store w))), w).

(** *** The aggregate error of a fan-out *)

(** The objects [self.connections()] would hold. *)
Record LegConnection : Type := mkLegConnection {
  curator : string
}.

Record BoundSelf : Type := mkBoundSelf {
  connections : list LegConnection;
  self_connection_id : string
}.

(** The names [_buildErrorMessage] reads from the module namespace
    without their being parameters or locals. *)
Record Globals : Type := mkGlobals {
  g_self : option BoundSelf;
  g_connPath : option (LegConnection -> string)
}.

(** The namespace of the module as it is: [_buildErrorMessage] is a
    module-level function, so there is no [self], and [connPath] is
    commented out. *)
Definition module_globals : Globals := mkGlobals None None.

(** Reading a global name. *)
Definition global {A} (nm : string) (binding : option A) : Result A :=
  match binding with
  | Some v => Ok v
  | None => Raise (NameError ("global name '" +:+ nm +:+ "' is not defined"))
  end.

(** [[ (conn, f) for (success, f), conn in zip(results, conns) if success is False ]] *)
Fixpoint failures_with_conn {A} (pairs : list (Outcome A * LegConnection))
    : list (LegConnection * Exn) :=
  match pairs with
  | [] => []
  | (Succeeded _, _) :: rest => failures_with_conn rest
  | (Failed f, conn) :: rest => (conn, f) :: failures_with_conn rest
  end.

Definition _buildErrorMessage {A} (g : Globals) (results : list (Outcome A))
    (action : string) : Result string :=
  self <- global "self" (g_self g) ;;
  let failures := failures_with_conn (combine results (connections self)) in
  failure_msgs <-
    mapM (fun cf : LegConnection * Exn =>
            connPath <- global "connPath" (g_connPath g) ;;
            Ok (curator (fst cf) +:+ " " +:+ connPath (fst cf) +:+ " "
                +:+ getErrorMessage (snd cf)))
         failures ;;
  if (length results =? 1)%nat then
    match failures with
    | [] => Raise (IndexError "list index out of range")
    | cf :: _ => Ok (getErrorMessage (snd cf))
    end
  else
    Ok (pretty (length failures) +:+ "/" +:+ pretty (length results) +:+ " "
        +:+ action +:+ " failed: " +:+ String.concat ". " failure_msgs).

(** The value returned is the error object; [Raise] is an exception
    escaping the function itself. *)
Definition _createAggregateException {A} (g : Globals) (results : list (Outcome A))
    (action : string) (default_error : string -> Exn) : Result Exn :=
  let failures := failures_of results in
  if (length failures =? 0)%nat then
    Ok (InternalServerError "_createAggregateFailure called with no failures")
  else if (length results =? 1)%nat && (length failures =? 1)%nat then
    match failures with
    | f :: _ => Ok f
    | [] => Raise (IndexError "list index out of range")
    end
  else
    error_msg <- _buildErrorMessage g results action ;;
    Ok (default_error error_msg).

(** [_createAggregateFailure(results, action)]; the [failure.Failure]
    around the error is left implicit. *)
Definition _createAggregateFailure {A} (results : list (Outcome A)) (action : string)
    : Result Exn :=
  _createAggregateException module_globals results action InternalServerError.

(** A call with [given] positional arguments of a function that has
    [params] parameters, none with a default. *)
Definition call_positional {A} (fname : string) (params given : nat) (body : Result A)
    : Result A :=
  if (params =? given)%nat then body
  else Raise (TypeError (fname +:+ "() takes exactly " +:+ pretty params
                         +:+ " arguments (" +:+ pretty given +:+ " given)")).

(** *** The operations

    The state machine ([opennsa.state]), the handlers of the service
    registry and the [terminate] method of a sub-connection record are
    not part of the sources; the operations take them as parameters. *)

(** What a function of [opennsa.state] is applied to. *)
Inductive StateArg : Type :=
| OnConnection (conn : ServiceConnection)
| OnResults (results : list bool).

(** The aggregator object. *)
Record Self : Type := mkSelf {
  self_network : string;
  self_nsa : string;
  self_topology : Topology
}.

Section Operations.

(** [state.<transition>(arg)], awaited: it persists the new state or
    raises. *)
Variable state_fn : Transition -> StateArg -> Store -> Result unit * Store.

(** [service_registry.getHandler(event, cs)(requester, provider, None,
    connection_id)]: the outcome of the deferred it returns. *)
Variable handler :
  Event -> Locality -> string -> string -> string -> Store -> Outcome string * Store.

(** [rc.terminate()] of a [database.Subconnection]. *)
Variable Subconnection_terminate : Subconnection -> Store -> Outcome unit * Store.

(** The service parameters of a request, handed back unchanged. *)
Variable ServiceParameters : Type.

Definition state_call (tr : Transition) (arg : StateArg) : M unit :=
  fun w =>
    let (r, s) := state_fn tr arg (store w) in
    (r, mkWorld s (dispatched w) (random w)).

Definition call_handler (ev : Event) (cs : Locality) (requester provider cid : string)
    : M (Outcome string) :=
  fun w =>
    let (r, s) := handler ev cs requester provider cid (store w) in
    (Ok r, mkWorld s (dispatched w ++ [mkDispatch ev cs requester provider cid]) (random w)).

(** A deferred whose result is never read: what it did stays, its
    failure goes nowhere. *)
Definition unawaited {A} (m : M A) : M unit :=
  fun w => let (_, w') := m w in (Ok tt, w').

Definition getConnection (requester_nsa cid : string) : M ServiceConnection :=
  found <~ ServiceConnection_findBy cid ;;
  match found with
  | [] => raise (ConnectionNonExistentError ("No connection with id " +:+ cid))
  | c :: _ => ret c
  end.

Definition forAllSubConnections (self : Self) (conn : ServiceConnection) (event : Event)
    : M (list (Outcome string)) :=
  sub_connections <~ subconnections_get conn ;;
  forM sub_connections (fun sc =>
    let cs := if String.eqb (sub_provider_nsa sc) (self_nsa self)
              then NSI2_LOCAL else NSI2_REMOTE in
    call_handler event cs (self_nsa self) (sub_provider_nsa sc) (sub_connection_id sc)).

(** [reserve], lines 244-251: the connection id of the new
    reservation. *)
Definition reserve_connection_id (cid : option string) : M string :=
  match cid with
  | Some c =>
      connection_exists <~ ServiceConnection_exists c ;;
      if connection_exists then
        raise (ConnectionExistsError ("Connection with id " +:+ c +:+ " already exists"))
      else
        raise (NotImplementedError "Cannot handly modification of existing connections yet")
  | None =>
      chars <~ repeatM 12
                 (random_choice (list_ascii_of_string (substring 0 16 hexdigits))) ;;
      ret (string_of_list_ascii chars)
  end.




(** [selected_path = paths[0]], line 348. *)
Definition selected_path (paths : list Path) : Result Path :=
  match paths with
  | [] => Raise (IndexError "list index out of range")
  | p :: _ => Ok p
  end.

(** The flag [DeferredList] records for a compensation after its two
    logging callbacks: the success callback formats its message with
    [connPath], which the module does not define, so it raises and
    the deferred ends as a failure; the error callback returns the
    [None] of [log.msg], so the deferred ends as a success. *)
Definition compensation_flag {A} (d : Outcome A) : bool := negb (success d).

(** [reserve], lines 400-425: what is done with the results of the
    fan-out.  [reply] is the tuple returned on success. *)
Definition reserve_complete
    (conn : ServiceConnection)
    (reply : string * option string * option string * ServiceParameters)
    (results : list (Outcome Subconnection))
    : M (string * option string * option string * ServiceParameters) :=
  let successes := map success results in
  if all successes then
    _ <~ state_call reserveHeld (OnConnection conn) ;;
    ret reply
  else
    let reserved_connections := successes_of results in
    defs <~ forM reserved_connections (fun rc =>
              on_store (Subconnection_terminate rc)) ;;
    (* dl = DeferredList(defs); dl.addCallback(state.terminatedFailed):
       the callback gets the result list of dl, and dl is not awaited *)
    _ <~ unawaited (state_call terminatedFailed
                      (OnResults (map compensation_flag defs))) ;;
    err <~ lift (call_positional "_createAggregateFailure" 2 3
                   (_createAggregateFailure results "reservations")) ;;
    raise err.

(** [terminate] *)
Definition terminate (self : Self) (requester_nsa provider_nsa : string)
    (session_security_attr : option string) (cid : string) : M string :=
  conn <~ getConnection requester_nsa cid ;;
  if State_eqb (lifecycle_state conn) TERMINATED then
    ret cid
  else
    _ <~ state_call terminating (OnConnection conn) ;;
    defs <~ forAllSubConnections self conn TERMINATE ;;
    let results := defs in
    let successes := map success results in
    if all successes then
      _ <~ state_call terminated (OnConnection conn) ;;
      ret cid
    else
      (* the log line reads self.connection_id, which the aggregator
         does not have, before the NotImplementedError is reached *)
      raise (AttributeError "Aggregator instance has no attribute 'connection_id'").

(** [Aggregator.reserveCommit] (the name [reserveCommit] is the transition
    of the state machine it calls). *)
Definition Aggregator_reserveCommit (self : Self) (requester_nsa provider_nsa : string)
    (session_security_attr : option string) (cid : string) : M string :=
  conn <~ getConnection requester_nsa cid ;;
  if State_eqb (lifecycle_state conn) TERMINATED then
    (* the message is not formatted: the %s stays in it *)
    raise (ConnectionGoneError "Connection %s has been terminated")
  else
    _ <~ state_call reserveCommit (OnConnection conn) ;;
    defs <~ forAllSubConnections self conn RESERVE_COMMIT ;;
    let results := defs in
    let successes := map success results in
    if all successes then
      _ <~ state_call reserved (OnConnection conn) ;;
      ret cid
    else
      raise (NotImplementedError "Cannot handle failure in reserve commit yet").

(** *** The fan-out of [reserve], lines 354-389 *)

(** [nsa.Link] with the attributes [reserve] reads. *)
Record PathLink : Type := mkPathLink {
  link_network : string;
  src_port : string;
  dst_port : string;
  src_labels : list string;
  dst_labels : list string
}.

(** [nsa.ServiceParameters] of one leg: times, the two STPs as
    [(network, port, labels)], bandwidth. *)
Record LegParameters : Type := mkLegParameters {
  leg_start_time : Z;
  leg_end_time : Z;
  leg_source_stp : string * string * list string;
  leg_dest_stp : string * string * list string;
  leg_bandwidth : Z
}.

(** The value a RESERVE handler answers with, unpacked by [reserveDone]
    as [global_reservation_id, description, connection_id,
    service_params]. *)
Definition ReserveReply : Type :=
  (option string * option string * string * LegParameters)%type.

(** [service_registry.getHandler(registry.RESERVE, cs)(self.nsa_,
    link_provider_nsa, None, global_reservation_id, description, None,
    ssp)]: the outcome of the deferred it returns.  NSA objects are
    named by their urn. *)
Variable reserve_handler :
  Locality -> string -> string -> option string -> option string -> LegParameters ->
  Store -> Outcome ReserveReply * Store.

(** The attribute [managing_nsa] of a network, and the comparison [==]
    of two NSA objects; [nsa.Network] and [nsa.NetworkServiceAgent] are
    not part of the sources. *)
Variable managing_nsa : Network -> string.
Variable nsa_equal : string -> string -> bool.

(** Modelled from the spec: [sc.save()] of [opennsa.database] persists
    the record of the leg (section 4.4, step 9); it is appended to the
    table of sub-connections. *)
Definition Subconnection_save (sc : Subconnection) : M unit :=
  on_store (fun st => (tt, mkStore (service_connections st) (subconnections st ++ [sc]))).

(** The callback [reserveDone(rig, link_provider_nsa, order_id)]. *)
Definition reserveDone (self : Self) (conn : ServiceConnection) (rig : ReserveReply)
    (link_provider_nsa : string) (order_id : nat) : M Subconnection :=
  let '(global_reservation_id, description, connection_id, service_params) := rig in
  let sp := service_params in
  let local_link := if nsa_equal link_provider_nsa (self_nsa self) then true else false in
  let sc :=
    mkSubconnection link_provider_nsa connection_id local_link 0 (id conn) order_id
      RESERVE_HELD SCHEDULED INACTIVE INITIAL
      (fst (fst (leg_source_stp sp))) (snd (fst (leg_source_stp sp)))
      (fst (fst (leg_dest_stp sp))) (snd (fst (leg_dest_stp sp))) in
  _ <~ Subconnection_save sc ;;
  ret sc.

(** The body of [for idx, link in enumerate(selected_path)], from the
    index [idx] on; the list returned is the result of the
    [DeferredList] over the deferreds of the legs. *)
Fixpoint reserve_legs (self : Self) (conn : ServiceConnection) (idx : nat)
    (links : list PathLink) : M (list (Outcome Subconnection)) :=
  match links with
  | [] => ret []
  | link :: rest =>
      let ssp :=
        mkLegParameters (start_time conn) (end_time conn)
          (link_network link, src_port link, src_labels link)
          (link_network link, dst_port link, dst_labels link)
          (bandwidth conn) in
      let cs := if String.eqb (link_network link) (self_network self)
                then NSI2_LOCAL else NSI2_REMOTE in
      nw <~ lift (getNetwork (self_topology self) (self_network self)) ;;
      let link_provider_nsa := managing_nsa nw in
      d <~ on_store (reserve_handler cs (self_nsa self) link_provider_nsa
                       (global_reservation_id conn) (description conn) ssp) ;;
      leg <~ match d with
             | Succeeded rig =>
                 sc <~ reserveDone self conn rig link_provider_nsa idx ;;
                 ret (Succeeded sc)
             | Failed f => ret (Failed f)
             end ;;
      legs <~ reserve_legs self conn (S idx) rest ;;
      ret (leg :: legs)
  end.

Definition reserve_fan_out (self : Self) (conn : ServiceConnection)
    (selected_path : list PathLink) : M (list (Outcome Subconnection)) :=
  reserve_legs self conn 0 selected_path.

End Operations.

End Aggregator.

(** ** The NSI2 provider ([opennsa/protocols/nsi2/provider.py]) *)

Module Provider.

Definition RESERVE_RESPONSE : string := "reserve_response".
Definition RESERVE_COMMIT_RESPONSE : string := "reserve_commit_response".
Definition PROVISION_RESPONSE : string := "provision_response".
Definition RELEASE_RESPONSE : string := "release_response".
Definition TERMINATE_RESPONSE : string := "terminate_response".

(** The fields of an NSI header the provider reads. *)
Record Header : Type := mkHeader {
  reply_to : option string;
  requester_nsa : string;
  provider_nsa : string;
  correlation_id : string
}.

(** [if nsi_header.reply_to:] *)
Definition truthy (s : option string) : bool :=
  match s with
  | None => false
  | Some v => negb (String.eqb v "")
  end.

Section Provider.

Variable ServiceParameters : Type.

(** The calls the provider makes on [self.provider_client]. *)
Inductive ClientCall : Type :=
| client_reserveConfirmed (nsi_header : Header) (connection_id : string)
    (global_reservation_id description : option string)
    (service_parameters : ServiceParameters)
| client_reserveCommitConfirmed (reply : option string)
    (requester provider correlation connection_id : string)
| client_provisionConfirmed (reply : option string)
    (correlation requester provider connection_id : string)
| client_terminateConfirmed (reply : option string)
    (requester provider correlation connection_id : string).

(** The provider object: the dictionary [notifications], and the
    calls made on the provider client so far. *)
Record State : Type := mkState {
  notifications : gmap (string * string) Header;
  client_calls : list ClientCall
}.

(** [Provider(service_provider, provider_client)] *)
Definition init : State := mkState ∅ [].

(** A deferred as returned to the caller; [defer.succeed(None)] is
    [Succeeded None]. *)
Definition Deferred : Type := Outcome (option string).

(** The provider client: what a call returns, or the exception it
    raises. *)
Variable provider_client : ClientCall -> Result Deferred.

(** [d.pop(key)] *)
Definition pop (key : string * string) (d : gmap (string * string) Header)
    : Result (Header * gmap (string * string) Header) :=
  match d !! key with
  | Some h => Ok (h, delete key d)
  | None => Raise (KeyError (fst key +:+ ", " +:+ snd key))
  end.

(** The body shared by the four confirmations:
    [try: h = self.notifications.pop(key); return client(...)
     except KeyError: return defer.succeed(None)]. *)
Definition confirm (self : State) (key : string * string) (call : Header -> ClientCall)
    : Result Deferred * State :=
  match pop key (notifications self) with
  | Ok (org_header, rest) =>
      let self' := mkState rest (client_calls self ++ [call org_header]) in
      match provider_client (call org_header) with
      | Raise (KeyError _) => (Ok (Succeeded None), self')
      | r => (r, self')
      end
  | Raise (KeyError _) => (Ok (Succeeded None), self)
  | Raise e => (Raise e, self)
  end.

Definition reserveConfirmed (self : State) (nsi_header : Header) (connection_id : string)
    (global_reservation_id description : option string)
    (service_parameters : ServiceParameters) : Result Deferred * State :=
  confirm self (connection_id, RESERVE_RESPONSE)
    (fun nsi_header =>
       client_reserveConfirmed nsi_header connection_id global_reservation_id
         description service_parameters).

Definition reserveCommitConfirmed (self : State) (header : Header) (connection_id : string)
    : Result Deferred * State :=
  confirm self (connection_id, RESERVE_COMMIT_RESPONSE)
    (fun org_header =>
       client_reserveCommitConfirmed (reply_to org_header) (requester_nsa org_header)
         (provider_nsa org_header) (correlation_id org_header) connection_id).

Definition provisionConfirmed (self : State) (header : Header) (connection_id : string)
    : Result Deferred * State :=
  confirm self (connection_id, PROVISION_RESPONSE)
    (fun org_header =>
       client_provisionConfirmed (reply_to org_header) (correlation_id org_header)
         (requester_nsa org_header) (provider_nsa org_header) connection_id).

Definition terminateConfirmed (self : State) (header : Header) (connection_id : string)
    : Result Deferred * State :=
  confirm self (connection_id, TERMINATE_RESPONSE)
    (fun org_header =>
       client_terminateConfirmed (reply_to org_header) (requester_nsa org_header)
         (provider_nsa org_header) (correlation_id org_header) connection_id).

(** The requests that store the header: [reserveCommit], [provision]
    and [terminate] store it under the connection id of the request
    before calling the service provider; [reserve] stores it under
    the id the service provider assigned (callback [setNotify]). *)
Definition store_header (self : State) (nsi_header : Header) (key : string * string)
    : State :=
  if truthy (reply_to nsi_header) then
    mkState (<[key := nsi_header]> (notifications self)) (client_calls self)
  else self.

Definition setNotify (self : State) (nsi_header : Header) (assigned_connection_id : string)
    : State :=
  store_header self nsi_header (assigned_connection_id, RESERVE_RESPONSE).

Definition reserveCommit (self : State) (nsi_header : Header) (connection_id : string)
    : State :=
  store_header self nsi_header (connection_id, RESERVE_COMMIT_RESPONSE).

Definition provision (self : State) (nsi_header : Header) (connection_id : string)
    : State :=
  store_header self nsi_header (connection_id, PROVISION_RESPONSE).

Definition terminate (self : State) (nsi_header : Header) (connection_id : string)
    : State :=
  store_header self nsi_header (connection_id, TERMINATE_RESPONSE).

(** A confirmation arriving at the provider, with its arguments. *)
Inductive Confirmation : Type :=
| ReserveConfirmed (nsi_header : Header) (connection_id : string)
    (global_reservation_id description : option string)
    (service_parameters : ServiceParameters)
| ReserveCommitConfirmed (header : Header) (connection_id : string)
| ProvisionConfirmed (header : Header) (connection_id : string)
| TerminateConfirmed (header : Header) (connection_id : string).

Definition deliver (self : State) (c : Confirmation) : Result Deferred * State :=
  match c with
  | ReserveConfirmed h cid g d sp => reserveConfirmed self h cid g d sp
  | ReserveCommitConfirmed h cid => reserveCommitConfirmed self h cid
  | ProvisionConfirmed h cid => provisionConfirmed self h cid
  | TerminateConfirmed h cid => terminateConfirmed self h cid
  end.

(** The key [(connection_id, response type)] of a confirmation. *)
Definition notification_key (c : Confirmation) : string * string :=
  match c with
  | ReserveConfirmed _ cid _ _ _ => (cid, RESERVE_RESPONSE)
  | ReserveCommitConfirmed _ cid => (cid, RESERVE_COMMIT_RESPONSE)
  | ProvisionConfirmed _ cid => (cid, PROVISION_RESPONSE)
  | TerminateConfirmed _ cid => (cid, TERMINATE_RESPONSE)
  end.

(** The call a confirmation makes on the provider client when the
    header [h] is stored for it. *)
Definition client_call_of (c : Confirmation) (h : Header) : ClientCall :=
  match c with
  | ReserveConfirmed _ cid g d sp => client_reserveConfirmed h cid g d sp
  | ReserveCommitConfirmed _ cid =>
      client_reserveCommitConfirmed (reply_to h) (requester_nsa h) (provider_nsa h)
        (correlation_id h) cid
  | ProvisionConfirmed _ cid =>
      client_provisionConfirmed (reply_to h) (correlation_id h) (requester_nsa h)
        (provider_nsa h) cid
  | TerminateConfirmed _ cid =>
      client_terminateConfirmed (reply_to h) (requester_nsa h) (provider_nsa h)
        (correlation_id h) cid
  end.

(** The calls the provider makes on [self.service_provider]. *)
Inductive ServiceCall : Type :=
| service_reserve (nsi_header : Header) (connection_id : option string)
    (global_reservation_id description : option string)
    (service_parameters : ServiceParameters)
| service_reserveCommit (nsi_header : Header) (connection_id : string)
| service_provision (nsi_header : Header) (connection_id : string)
| service_release (nsi_header : Header) (connection_id : string)
| service_terminate (nsi_header : Header) (connection_id : string).

(** The service provider: the outcome of the deferred a call returns, or
    the exception it raises. *)
Variable service_provider : ServiceCall -> Result (Outcome string).

(** [reserve]: [setNotify] is a callback of the deferred of the service
    provider, so it runs on the connection id of a successful result. *)
Definition reserve (self : State) (nsi_header : Header) (connection_id : option string)
    (global_reservation_id description : option string)
    (service_parameters : ServiceParameters) : Result (Outcome string) * State :=
  match service_provider
          (service_reserve nsi_header connection_id global_reservation_id description
             service_parameters) with
  | Ok (Succeeded assigned_connection_id) =>
      (Ok (Succeeded assigned_connection_id),
       setNotify self nsi_header assigned_connection_id)
  | r => (r, self)
  end.

(** [reserveCommit], [provision] and [terminate] in full: the header is
    stored, then the service provider is called and its result
    returned.  [release] stores nothing. *)
Definition reserveCommit_request (self : State) (nsi_header : Header)
    (connection_id : string) : Result (Outcome string) * State :=
  let self' := reserveCommit self nsi_header connection_id in
  (service_provider (service_reserveCommit nsi_header connection_id), self').

Definition provision_request (self : State) (nsi_header : Header)
    (connection_id : string) : Result (Outcome string) * State :=
  let self' := provision self nsi_header connection_id in
  (service_provider (service_provision nsi_header connection_id), self').

Definition terminate_request (self : State) (nsi_header : Header)
    (connection_id : string) : Result (Outcome string) * State :=
  let self' := terminate self nsi_header connection_id in
  (service_provider (service_terminate nsi_header connection_id), self').

Definition release (self : State) (nsi_header : Header) (connection_id : string)
    : Result (Outcome string) * State :=
  (service_provider (service_release nsi_header connection_id), self).

(** What reaches the provider: a request, or a confirmation.  The
    connection id of a [reserve] request is optional. *)
Inductive Message : Type :=
| ReserveRequest (nsi_header : Header) (connection_id : option string)
    (global_reservation_id description : option string)
    (service_parameters : ServiceParameters)
| ReserveCommitRequest (nsi_header : Header) (connection_id : string)
| ProvisionRequest (nsi_header : Header) (connection_id : string)
| ReleaseRequest (nsi_header : Header) (connection_id : string)
| TerminateRequest (nsi_header : Header) (connection_id : string)
| Confirmed (c : Confirmation).

(** The provider after a message; an exception leaves the changes made
    before it in place. *)
Definition receive (self : State) (m : Message) : State :=
  match m with
  | ReserveRequest h cid g d sp => snd (reserve self h cid g d sp)
  | ReserveCommitRequest h cid => snd (reserveCommit_request self h cid)
  | ProvisionRequest h cid => snd (provision_request self h cid)
  | ReleaseRequest h cid => snd (release self h cid)
  | TerminateRequest h cid => snd (terminate_request self h cid)
  | Confirmed c => snd (deliver self c)
  end.

(** The provider after a sequence of messages. *)
Definition receive_all (self : State) (ms : list Message) : State :=
  fold_left receive ms self.

(** The requests that carry a reply address. *)
Definition asks_reply (m : Message) : bool :=
  match m with
  | ReserveRequest h _ _ _ _ | ReserveCommitRequest h _ | ProvisionRequest h _
  | TerminateRequest h _ => truthy (reply_to h)
  | ReleaseRequest _ _ | Confirmed _ => false
  end.

End Provider.

End Provider.

(** ** Notions used to state the properties *)

Module Spec.

Import Topology.

(** Endpoint [a] is remote-paired with endpoint [b]: the pairing of [a]
    names the port [b] of the topology. *)
Definition paired (t : Topology) (a b : Endpoint) : Prop :=
  exists peer,
    dest_stp a = Some peer /\
    getEndpoint t (stp_network peer) (stp_endpoint peer) = Ok b.

(** Every link of a route ends on a port paired with the port the next
    link starts from. *)
Fixpoint chained (t : Topology) (r : Route) : Prop :=
  match r with
  | l1 :: ((l2 :: _) as rest) => paired t (stp2 l1) (stp1 l2) /\ chained t rest
  | _ => True
  end.

(** The networks a route traverses, one per link. *)
Definition route_networks (r : Route) : list string :=
  map (fun l => network (stp1 l)) r.

(** The hop count of a path. *)
Definition hops (p : Path) : nat := length (links p).

(** A route that starts at the port of [src], ends at the port of
    [dst], and is chained in between. *)
Definition joined (t : Topology) (dst : STP) (src : STP) (V : list string) (r : Route)
    : Prop :=
  (exists first, head r = Some first /\
     getEndpoint t (stp_network src) (stp_endpoint src) = Ok (stp1 first)) /\
  (exists final, last r = Some final /\
     getEndpoint t (stp_network dst) (stp_endpoint dst) = Ok (stp2 final)) /\
  chained t r.

(** Link [l] lies in network [nw] of the topology: both its ports are
    ports of [nw]. *)
Definition link_in (t : Topology) (l : Link) (nw : Network) : Prop :=
  getNetwork t (name nw) = Ok nw /\
  In (stp1 l) (endpoints nw) /\
  In (stp2 l) (endpoints nw).

(** The first link lies in the network of [src]; the later links lie in
    networks that are new with respect to [V] and pairwise distinct. *)
Definition fresh_networks (t : Topology) (src : STP) (V : list string) (r : Route)
    : Prop :=
  exists l rest nw nws,
    r = l :: rest /\
    link_in t l nw /\
    name nw = stp_network src /\
    Forall2 (link_in t) rest nws /\
    List.NoDup (map name nws) /\
    forall n, In n (map name nws) -> ~ In n V.

(** The tag as section 4.1 of the specification words it: the last
    decimal digit in the port name; if none, the last character's code
    point modulo 4. *)
Definition stated_vlan_tag (nm : string) : option Z :=
  let chars := list_ascii_of_string nm in
  match rev (List.filter isdigit chars) with
  | d :: _ => Some (int_of_digit d)
  | [] =>
      match rev chars with
      | c :: _ => Some (ord c mod 4)
      | [] => None
      end
  end.

(** Every port of a network carries the name of that network. *)
Definition well_formed (t : Topology) : bool :=
  forallb (fun nw =>
             forallb (fun ep => String.eqb (network ep) (name nw)) (endpoints nw))
          (networks t).

(** The topologies obtained from [Topology()] by calls of [addNetwork]
    that returned. *)
Inductive built : Topology -> Prop :=
| built_empty : built empty
| built_add (t t' : Topology) (nw : Network) :
    built t -> addNetwork t nw = Ok t' -> built t'.

(** The number of networks of the topology not yet visited: what the
    recursion of [findPathEndpoints] decreases. *)
Definition unvisited (t : Topology) (visited : list string) : nat :=
  length (List.filter (fun n => negb (str_in n visited)) (map name (networks t))).

Definition has_digit (s : string) : bool :=
  existsb isdigit (list_ascii_of_string s).

(** A port without pairing, and a port paired with [peer_nw:peer_ep]. *)
Definition port (nw ep : string) : Endpoint := mkEndpoint nw ep None None.

Definition link_to (nw ep peer_nw peer_ep : string) : Endpoint :=
  mkEndpoint nw ep (Some (mkSTP peer_nw peer_ep)) None.

(** Three networks, each linked to both others; in [A] the port towards
    [B] comes before the port towards [C]. *)
Definition triangle : Topology :=
  mkTopology
    [ mkNetwork "A" [port "A" "a1"; link_to "A" "ab" "B" "ba"; link_to "A" "ac" "C" "ca"];
      mkNetwork "B" [link_to "B" "ba" "A" "ab"; link_to "B" "bc" "C" "cb"];
      mkNetwork "C" [link_to "C" "ca" "A" "ac"; link_to "C" "cb" "B" "bc"; port "C" "c1"] ].

(** Two networks [A] and [B] with the link [A:ax -- B:bx]. *)
Definition two_hop_A : Network :=
  mkNetwork "A" [port "A" "a1"; link_to "A" "ax" "B" "bx"].

Definition two_hop_B : Network :=
  mkNetwork "B" [link_to "B" "bx" "A" "ax"; port "B" "b2"].

Definition two_hop : Topology := mkTopology [two_hop_A; two_hop_B].

(** The alphabet of a connection id. *)
Definition hex16 : list ascii := list_ascii_of_string "0123456789abcdef".

(** The characters [n] successive calls of [random.choice(seq)] return
    when the generator is at position [cu] of its draws [dr]. *)
Fixpoint drawn (seq : list ascii) (d : ascii) (dr : nat -> nat) (cu n : nat)
    : list ascii :=
  match n with
  | O => []
  | S n' => nth (dr cu mod length seq)%nat seq d :: drawn seq d dr (S cu) n'
  end.

(** *** Connections used in the examples *)

Import Aggregator.

Definition with_states (c : ServiceConnection) (reservation lifecycle : State)
    : ServiceConnection :=
  mkServiceConnection (id c) (connection_id c) (revision c) (global_reservation_id c)
    (description c) (Aggregator.requester_nsa c) (reserve_time c)
    reservation (provision_state c) (activation_state c) lifecycle
    (source_network c) (source_port c) (source_labels c)
    (dest_network c) (dest_port c) (dest_labels c)
    (start_time c) (end_time c) (bandwidth c).

(** Modelled from the spec: a state machine in the sense of section
    4.2 ([opennsa.state] is not part of the sources), for the
    transitions the examples reach: applied to a connection it sets the
    state and persists the record; applied to anything else it raises
    and persists nothing. *)
Definition example_state_fn (tr : Transition) (arg : StateArg) (st : Store)
    : Result unit * Store :=
  match arg with
  | OnConnection conn =>
      let conn' :=
        match tr with
        | reserveHeld => with_states conn RESERVE_HELD (lifecycle_state conn)
        | terminating => with_states conn (reservation_state conn) TERMINATING
        | terminated => with_states conn (reservation_state conn) TERMINATED
        | terminatedFailed => with_states conn (reservation_state conn) TERMINATED_FAILED
        | _ => conn
        end in
      (Ok tt,
       mkStore (map (fun c => if Nat.eqb (id c) (id conn) then conn' else c)
                    (service_connections st))
               (subconnections st))
  | OnResults _ =>
      (Raise (AttributeError "'list' object has no attribute 'lifecycle_state'"), st)
  end.

(** Handlers and compensations that succeed and leave the store as it
    is. *)
Definition example_handler (ev : Event) (cs : Locality) (requester provider cid : string)
    (st : Store) : Outcome string * Store :=
  (Succeeded cid, st).

Definition example_terminate (rc : Subconnection) (st : Store) : Outcome unit * Store :=
  (Succeeded tt, st).

(** The parent of the two-hop reservation [A:a1 -> B:b2] while its
    legs are being reserved, and the record of its leg in [A]. *)
Definition parent : ServiceConnection :=
  mkServiceConnection 1 "0123456789ab" 0 None None "urn:requester" 0
    RESERVE_CHECKING SCHEDULED INACTIVE INITIAL
    "A" "a1" [] "B" "b2" [] 0 3600 100.

Definition leg_A : Subconnection :=
  mkSubconnection "urn:nsa:A" "leg-A" true 0 1 0
    RESERVE_HELD SCHEDULED INACTIVE INITIAL "A" "a1" "A" "ax".

Definition no_draws : Random := mkRandom (fun _ => O) O.

(** The leg in [A] was reserved and its record saved; the leg in [B]
    failed. *)
Definition partial_failure : list (Outcome Subconnection) :=
  [Succeeded leg_A; Failed (OtherError "ReserveError" "port b2 is in use")].

Definition world_partial_failure : World :=
  mkWorld (mkStore [parent] [leg_A]) [] no_draws.

Definition aggregator_A : Self := mkSelf "A" "urn:nsa:A" two_hop.

(** A terminated connection with one leg. *)
Definition terminated_parent : ServiceConnection :=
  with_states parent RESERVED TERMINATED.

Definition world_terminated : World :=
  mkWorld (mkStore [terminated_parent] [leg_A]) [] no_draws.

(** A store that holds a connection with the id the generator is about
    to produce. *)
Definition colliding_parent : ServiceConnection :=
  mkServiceConnection 1 "000000000000" 0 None None "urn:requester" 0
    RESERVED SCHEDULED INACTIVE CREATED
    "A" "a1" [] "B" "b2" [] 0 3600 100.

Definition world_collision : World :=
  mkWorld (mkStore [colliding_parent] []) [] no_draws.

(** The two-hop topology with one more port of [A], paired with a
    network [Y] that is not there. *)
Definition dangling : Topology :=
  mkTopology
    [ mkNetwork "A" [port "A" "a1"; link_to "A" "ax" "B" "bx"; link_to "A" "ay" "Y" "ya"];
      two_hop_B ].

(** *** Routes, capacities and legs *)

(** The routes from the port [src] to the port [dst] that avoid the
    networks [V]: a route leaves the network of [src] through a port
    paired with a network outside [V]; if that is the network of [dst]
    it ends there with the link to the port of [dst], otherwise it goes
    on from the paired port, avoiding that network too. *)
Inductive simple_route (t : Topology) (dst : STP) : STP -> list string -> Route -> Prop :=
| simple_last (src : STP) (V : list string) (snw : Network) (ep : Endpoint) (peer : STP)
    (source_ep lse lde : Endpoint) :
    getNetwork t (stp_network src) = Ok snw ->
    In ep (endpoints snw) ->
    dest_stp ep = Some peer ->
    ~ In (stp_network peer) V ->
    getEndpoint t (stp_network src) (stp_endpoint src) = Ok source_ep ->
    stp_network peer = stp_network dst ->
    getEndpoint t (stp_network peer) (stp_endpoint peer) = Ok lse ->
    getEndpoint t (stp_network dst) (stp_endpoint dst) = Ok lde ->
    simple_route t dst src V [mkLink source_ep ep; mkLink lse lde]
| simple_step (src : STP) (V : list string) (snw : Network) (ep : Endpoint) (peer : STP)
    (source_ep : Endpoint) (sr : Route) :
    getNetwork t (stp_network src) = Ok snw ->
    In ep (endpoints snw) ->
    dest_stp ep = Some peer ->
    ~ In (stp_network peer) V ->
    getEndpoint t (stp_network src) (stp_endpoint src) = Ok source_ep ->
    stp_network peer <> stp_network dst ->
    simple_route t dst peer (V ++ [stp_network peer]) sr ->
    simple_route t dst src V (mkLink source_ep ep :: sr).

(** The capacity of a port, where known, covers the minimum asked for,
    where one is asked for. *)
Definition covers (bw : Bandwidth) (ep : Endpoint) : Prop :=
  forall c m, available_capacity ep = Some c -> minimum bw = Some m -> m <= c.

(** No port of the topology has the empty name. *)
Definition named_ports (t : Topology) : bool :=
  forallb (fun nw =>
             forallb (fun ep => negb (String.eqb (endpoint ep) "")) (endpoints nw))
          (networks t).

(** The legs of a connection in a store, and the handler calls a fan-out
    of [ev] over legs makes. *)
Definition legs_of (conn : ServiceConnection) (st : Store) : list Subconnection :=
  List.filter (fun sc => Nat.eqb (sub_service_connection_id sc) (id conn))
    (subconnections st).

Definition fan_out (self : Self) (ev : Event) (legs : list Subconnection) : list Dispatch :=
  map (fun sc =>
         mkDispatch ev
           (if String.eqb (sub_provider_nsa sc) (self_nsa self)
            then NSI2_LOCAL else NSI2_REMOTE)
           (self_nsa self) (sub_provider_nsa sc) (sub_connection_id sc))
      legs.

(** What [terminate] and [reserveCommit] do once the connection is
    loaded and found alive: the transition [enter], the fan-out of [ev],
    and then the transition [leave] or the exception [partial]. *)
Definition guarded_fan_out
    (state_fn : Transition -> StateArg -> Store -> Result unit * Store)
    (handler : Event -> Locality -> string -> string -> string -> Store
               -> Outcome string * Store)
    (self : Self) (enter leave : Transition) (ev : Event) (partial : Exn)
    (conn : ServiceConnection) (cid : string) (w : World) : Result string * World :=
  match state_fn enter (OnConnection conn) (store w) with
  | (Raise e, st1) => (Raise e, mkWorld st1 (dispatched w) (random w))
  | (Ok _, st1) =>
      match forAllSubConnections handler self conn ev
              (mkWorld st1 (dispatched w) (random w)) with
      | (Raise e, w2) => (Raise e, w2)
      | (Ok results, w2) =>
          if all (map success results) then
            match state_fn leave (OnConnection conn) (store w2) with
            | (Raise e, st3) => (Raise e, mkWorld st3 (dispatched w2) (random w2))
            | (Ok _, st3) => (Ok cid, mkWorld st3 (dispatched w2) (random w2))
            end
          else (Raise partial, w2)
      end
  end.

(** A state machine and a handler that refuse. *)
Definition refusing_state_fn (tr : Transition) (arg : StateArg) (st : Store)
    : Result unit * Store :=
  (Raise (OtherError "StateTransitionError" "transition not allowed"), st).

Definition failing_handler (ev : Event) (cs : Locality) (requester provider cid : string)
    (st : Store) : Outcome string * Store :=
  (Failed (OtherError "TerminateError" "leg is gone"), st).

(** *** The fan-out of the two-hop reservation *)

Definition two_hop_path : list PathLink :=
  [mkPathLink "A" "a1" "ax" [] []; mkPathLink "B" "bx" "b2" [] []].

Definition example_managing_nsa (nw : Network) : string := "urn:nsa:" +:+ name nw.

(** A RESERVE handler that names the leg after its network and keeps
    the store as it is; one that does so for local legs and fails for
    remote ones. *)
Definition example_reserve_handler (cs : Locality) (requester provider : string)
    (grid desc : option string) (ssp : LegParameters) (st : Store)
    : Outcome ReserveReply * Store :=
  (Succeeded (grid, desc, "leg-" +:+ fst (fst (leg_source_stp ssp)), ssp), st).

Definition local_only_reserve_handler (cs : Locality) (requester provider : string)
    (grid desc : option string) (ssp : LegParameters) (st : Store)
    : Outcome ReserveReply * Store :=
  match cs with
  | NSI2_LOCAL => example_reserve_handler cs requester provider grid desc ssp st
  | _ => (Failed (OtherError "ReserveError" "port b2 is in use"), st)
  end.

(** The record [reserveDone] builds for the leg at position [i], as far
    as it does not depend on the answer of the handler; [nw] is the
    network of the aggregator. *)
Definition leg_record (managing_nsa : Network -> string) (nsa_equal : string -> string -> bool)
    (self : Self) (conn : ServiceConnection) (nw : Network) (i : nat) (sc : Subconnection)
    : Prop :=
  sub_order_id sc = i /\
  sub_service_connection_id sc = id conn /\
  sub_revision sc = 0 /\
  sub_reservation_state sc = RESERVE_HELD /\
  sub_provision_state sc = SCHEDULED /\
  sub_activation_state sc = INACTIVE /\
  sub_lifecycle_state sc = INITIAL /\
  sub_provider_nsa sc = managing_nsa nw /\
  sub_local_link sc = nsa_equal (managing_nsa nw) (self_nsa self).

Definition world_reserving : World := mkWorld (mkStore [parent] []) [] no_draws.

(** The record of the leg in [B] when both legs of the two-hop
    reservation succeed, and the world after the fan-out. *)
Definition leg_B : Subconnection :=
  mkSubconnection "urn:nsa:A" "leg-B" true 0 1 1
    RESERVE_HELD SCHEDULED INACTIVE INITIAL "B" "bx" "B" "b2".

Definition world_reserved : World := mkWorld (mkStore [parent] [leg_A; leg_B]) [] no_draws.

(** An aggregator whose own network is not in its topology. *)
Definition aggregator_Z : Self := mkSelf "Z" "urn:nsa:Z" two_hop.

(** *** A provider client and a request header used in the examples *)

Definition requester_header : Provider.Header :=
  Provider.mkHeader (Some "http://requester.example/nsi") "urn:requester"
    "urn:provider" "corr-1".

Definition acknowledging_client (call : Provider.ClientCall unit)
    : Result (Provider.Deferred) :=
  Ok (Succeeded (Some "ack")).

End Spec.

(** ** Properties of the topology *)

Module TopologyFacts.

Import Topology Spec.

Lemma str_in_In (x : string) (xs : list string) :
  str_in x xs = true <-> In x xs.
Proof.
  unfold str_in. rewrite existsb_exists. split.
  - intros [y [Hy Heq]]. apply String.eqb_eq in Heq. now subst.
  - intros H. exists x. split; [assumption | apply String.eqb_refl].
Qed.

Lemma str_in_not_In (x : string) (xs : list string) :
  str_in x xs = false <-> ~ In x xs.
Proof.
  rewrite <- str_in_In. destruct (str_in x xs); split; congruence.
Qed.

Lemma getNetwork_loop_Ok (nws : list Network) (n : string) (nw : Network) :
  getNetwork_loop nws n = Ok nw -> In nw nws /\ name nw = n.
Proof.
  induction nws as [|a nws IH]; simpl; [discriminate|].
  destruct (String.eqb (name a) n) eqn:E.
  - intros [= ->]. apply String.eqb_eq in E. auto.
  - intros H. destruct (IH H). auto.
Qed.

Lemma getNetwork_Ok (t : Topology) (n : string) (nw : Network) :
  getNetwork t n = Ok nw -> In nw (networks t) /\ name nw = n.
Proof. apply getNetwork_loop_Ok. Qed.

Lemma getNetwork_loop_missing (nws : list Network) (n : string) :
  ~ In n (map name nws) -> exists e, getNetwork_loop nws n = Raise e.
Proof.
  induction nws as [|a nws IH]; simpl; intros H; [eauto|].
  destruct (String.eqb (name a) n) eqn:E.
  - apply String.eqb_eq in E. tauto.
  - apply IH. tauto.
Qed.

(** With unique names, a network of the topology is the one
    [getNetwork] returns for its name. *)
Lemma getNetwork_loop_unique (nws : list Network) (nw : Network) :
  List.NoDup (map name nws) -> In nw nws -> getNetwork_loop nws (name nw) = Ok nw.
Proof.
  induction nws as [|a nws IH]; simpl; [tauto|].
  intros Hnd [-> | Hin].
  - now rewrite String.eqb_refl.
  - inversion Hnd as [|? ? Hnotin Hnd']; subst.
    destruct (String.eqb (name a) (name nw)) eqn:E.
    + apply String.eqb_eq in E. exfalso. apply Hnotin. rewrite E.
      now apply in_map.
    + now apply IH.
Qed.

Lemma getEndpoint_loop_Ok (eps : list Endpoint) (err : Exn) (n : string) (ep : Endpoint) :
  getEndpoint_loop eps err n = Ok ep -> In ep eps /\ endpoint ep = n.
Proof.
  induction eps as [|a eps IH]; simpl; [discriminate|].
  destruct (String.eqb (endpoint a) n) eqn:E.
  - intros [= ->]. apply String.eqb_eq in E. auto.
  - intros H. destruct (IH H). auto.
Qed.

(** Whether the scan finds the port does not depend on the error it
    would raise. *)
Lemma getEndpoint_loop_err (eps : list Endpoint) (e1 e2 : Exn) (n : string) (ep : Endpoint) :
  getEndpoint_loop eps e1 n = Ok ep -> getEndpoint_loop eps e2 n = Ok ep.
Proof.
  induction eps as [|a eps IH]; simpl; [discriminate|].
  destruct (String.eqb (endpoint a) n); auto.
Qed.

Lemma getEndpoint_Ok (t : Topology) (nwn epn : string) (ep : Endpoint) :
  getEndpoint t nwn epn = Ok ep ->
  exists nw, getNetwork t nwn = Ok nw /\ In ep (endpoints nw) /\ endpoint ep = epn.
Proof.
  unfold getEndpoint. destruct (getNetwork t nwn) as [nw|e] eqn:E; simpl; [|discriminate].
  intros H. apply getEndpoint_loop_Ok in H. exists nw. tauto.
Qed.

Lemma Network_getEndpoint_getEndpoint (t : Topology) (nw : Network) (nwn epn : string)
    (ep : Endpoint) :
  getNetwork t nwn = Ok nw ->
  Network_getEndpoint nw epn = Ok ep ->
  getEndpoint t nwn epn = Ok ep.
Proof.
  unfold getEndpoint, Network_getEndpoint. intros -> H. simpl.
  eapply getEndpoint_loop_err, H.
Qed.

Lemma well_formed_network (t : Topology) (nw : Network) (ep : Endpoint) :
  well_formed t = true -> In nw (networks t) -> In ep (endpoints nw) ->
  network ep = name nw.
Proof.
  unfold well_formed. rewrite forallb_forall. intros H Hnw Hep.
  specialize (H nw Hnw). rewrite forallb_forall in H.
  apply String.eqb_eq. now apply H.
Qed.

Lemma well_formed_getEndpoint (t : Topology) (nwn epn : string) (ep : Endpoint) :
  well_formed t = true -> getEndpoint t nwn epn = Ok ep -> network ep = nwn.
Proof.
  intros Hwf H. apply getEndpoint_Ok in H. destruct H as [nw [Hnw [Hin _]]].
  apply getNetwork_Ok in Hnw. destruct Hnw as [Hnw <-].
  eapply well_formed_network; eassumption.
Qed.

Lemma filterM_In {A} (p : A -> Result bool) (xs ys : list A) (y : A) :
  filterM p xs = Ok ys -> In y ys -> In y xs.
Proof.
  revert ys. induction xs as [|x xs IH]; simpl; intros ys.
  - intros [= <-]. auto.
  - destruct (p x) as [b|e]; simpl; [|discriminate].
    destruct (filterM p xs) as [zs|e]; simpl; [|discriminate].
    intros [= <-] Hin. specialize (IH zs eq_refl).
    destruct b; [destruct Hin as [-> | Hin]|]; simpl; auto.
Qed.

(** *** An induction principle for the routes of [findPathEndpoints]

    A property [Q source visited route] holds of every route returned
    if it holds of the two-link routes that reach the destination
    network and is passed from a sub-route to the route extended by
    one link in front. *)

Section RouteInduction.

Variable t : Topology.
Variable dst : STP.
Variable Q : STP -> list string -> Route -> Prop.

Hypothesis Q_last :
  forall src V snw ep peer source_ep lse lde,
    getNetwork t (stp_network src) = Ok snw ->
    In ep (endpoints snw) ->
    dest_stp ep = Some peer ->
    ~ In (stp_network peer) V ->
    getEndpoint t (stp_network src) (stp_endpoint src) = Ok source_ep ->
    stp_network peer = stp_network dst ->
    getEndpoint t (stp_network peer) (stp_endpoint peer) = Ok lse ->
    getEndpoint t (stp_network dst) (stp_endpoint dst) = Ok lde ->
    Q src V [mkLink source_ep ep; mkLink lse lde].

Hypothesis Q_step :
  forall src V snw ep peer source_ep sr,
    getNetwork t (stp_network src) = Ok snw ->
    In ep (endpoints snw) ->
    dest_stp ep = Some peer ->
    ~ In (stp_network peer) V ->
    getEndpoint t (stp_network src) (stp_endpoint src) = Ok source_ep ->
    stp_network peer <> stp_network dst ->
    Q peer (V ++ [stp_network peer]) sr ->
    Q src V (mkLink source_ep ep :: sr).

Lemma findPathEndpoints_loop_routes
    (recurse : STP -> STP -> option (list string) -> option (Result (list Route)))
    (src : STP) (snw : Network) :
  getNetwork t (stp_network src) = Ok snw ->
  (forall peer nvn subs,
      recurse peer dst (Some nvn) = Some (Ok subs) -> Forall (Q peer nvn) subs) ->
  forall eps vis routes out,
    incl eps (endpoints snw) ->
    Forall (Q src (visited_or_init src vis)) routes ->
    findPathEndpoints_loop t recurse src dst eps vis routes = Some (Ok out) ->
    Forall (Q src (visited_or_init src vis)) out.
Proof.
  intros Hsnw Hrec eps.
  induction eps as [|ep eps IH]; intros vis routes out Hincl Hroutes; simpl.
  - intros [= <-]. exact Hroutes.
  - assert (Hep : In ep (endpoints snw)) by (apply Hincl; now left).
    assert (Hincl' : incl eps (endpoints snw))
      by (intros x Hx; apply Hincl; now right).
    destruct (dest_stp ep) as [peer|] eqn:Hpeer; [|now apply IH].
    set (V := visited_or_init src vis) in *.
    destruct (str_in (stp_network peer) V) eqn:Hseen.
    { intros H. now apply (IH (Some V) routes out). }
    apply str_in_not_In in Hseen.
    destruct (getEndpoint t (stp_network src) (stp_endpoint src))
      as [source_ep|e] eqn:Hsrc in |- *; [|discriminate].
    destruct (String.eqb (stp_network peer) (stp_network dst)) eqn:Hdst.
    + apply String.eqb_eq in Hdst.
      destruct (getEndpoint t (stp_network peer) (stp_endpoint peer))
        as [lse|e] eqn:Hlse in |- *; [|discriminate].
      destruct (getEndpoint t (stp_network dst) (stp_endpoint dst))
        as [lde|e] eqn:Hlde in |- *; [|discriminate].
      intros H. eapply (IH (Some V)); [exact Hincl'| |exact H].
      simpl. apply List.Forall_app. split; [exact Hroutes|].
      constructor; [|constructor]. eapply Q_last; eassumption.
    + apply String.eqb_neq in Hdst.
      destruct (recurse peer dst (Some (V ++ [stp_network peer])))
        as [[subs|e]|] eqn:Hsub in |- *; try discriminate.
      intros H. eapply (IH (Some V)); [exact Hincl'| |exact H].
      simpl. apply List.Forall_app. split; [exact Hroutes|].
      apply Hrec in Hsub. apply List.Forall_map.
      eapply List.Forall_impl; [|exact Hsub].
      intros sr Hsr. simpl. eapply Q_step; eassumption.
Qed.

Lemma findPathEndpoints_routes (fuel : nat) :
  forall src vis out,
    findPathEndpoints fuel t src dst vis = Some (Ok out) ->
    Forall (Q src (visited_or_init src vis)) out.
Proof.
  induction fuel as [|fuel IH]; intros src vis out; simpl; [discriminate|].
  destruct (getNetwork t (stp_network src)) as [snw|e] eqn:Hsnw; [|discriminate].
  intros H.
  eapply (findPathEndpoints_loop_routes _ src snw Hsnw); [| |constructor|exact H].
  - intros peer nvn subs Hsub. apply (IH peer (Some nvn) subs Hsub).
  - apply incl_refl.
Qed.

End RouteInduction.

(** *** What [findPaths] returns *)

Lemma findPaths_inv (t : Topology) (s d : STP) (bw : option Bandwidth)
    (paths : list Path) :
  findPaths t s d bw = Some (Ok paths) ->
  exists sep dep,
    getEndpoint t (stp_network s) (stp_endpoint s) = Ok sep /\
    getEndpoint t (stp_network d) (stp_endpoint d) = Ok dep /\
    ((stp_network s = stp_network d /\
      forall p, In p paths -> links p = [mkLink sep dep]) \/
     (stp_network s <> stp_network d /\
      exists routes,
        findPathEndpoints (findPaths_fuel t) t s d None = Some (Ok routes) /\
        forall p, In p paths -> In (links p) routes)).
Proof.
  unfold findPaths.
  destruct (getNetwork t (stp_network s)) as [snw|e] eqn:Hsnw; [|discriminate].
  destruct (Network_getEndpoint snw (stp_endpoint s)) as [sep|e] eqn:Hsep; [|discriminate].
  destruct (getNetwork t (stp_network d)) as [dnw|e] eqn:Hdnw; [|discriminate].
  destruct (Network_getEndpoint dnw (stp_endpoint d)) as [dep|e] eqn:Hdep; [|discriminate].
  pose proof (Network_getEndpoint_getEndpoint _ _ _ _ _ Hsnw Hsep) as Hs.
  pose proof (Network_getEndpoint_getEndpoint _ _ _ _ _ Hdnw Hdep) as Hd.
  destruct (getNetwork_Ok _ _ _ Hsnw) as [_ Hsn].
  destruct (getNetwork_Ok _ _ _ Hdnw) as [_ Hdn].
  rewrite Hsn, Hdn.
  assert (Hsub : forall routes0 routes1 : list Route,
             (forall r, In r routes1 -> In r routes0) ->
             forall pruned,
               _pruneMismatchedPorts
                 match bw with
                 | Some b => filterBandwidth routes1 b
                 | None => routes1
                 end = Ok pruned ->
               forall p, In p (map mkPath pruned) -> In (links p) routes0).
  { intros routes0 routes1 Hincl pruned Hpr p Hp.
    apply in_map_iff in Hp. destruct Hp as [r [<- Hr]]. simpl.
    apply Hincl. eapply filterM_In in Hr; [|exact Hpr].
    destruct bw as [b|]; [|exact Hr].
    unfold filterBandwidth in Hr. apply filter_In in Hr. tauto. }
  intros H. exists sep, dep. split; [exact Hs|]. split; [exact Hd|].
  destruct (String.eqb (stp_network s) (stp_network d)) eqn:Heq.
  - apply String.eqb_eq in Heq. left. split; [exact Heq|].
    intros p Hp.
    destruct (_pruneMismatchedPorts _) as [pruned|e] eqn:Hpr in H; simpl in H;
      [|discriminate].
    injection H as <-.
    specialize (Hsub [[mkLink sep dep]] [[mkLink sep dep]] (fun r Hr => Hr)
                     pruned Hpr p Hp).
    destruct Hsub as [Hl | []]. now symmetry.
  - apply String.eqb_neq in Heq. right. split; [exact Heq|].
    destruct (findPathEndpoints (findPaths_fuel t) t s d None)
      as [[routes|e]|] eqn:Hfound; try discriminate.
    exists routes. split; [reflexivity|].
    intros p Hp.
    destruct (_pruneMismatchedPorts _) as [pruned|e] eqn:Hpr in H; simpl in H;
      [|discriminate].
    injection H as <-.
    exact (Hsub routes routes (fun r Hr => Hr) pruned Hpr p Hp).
Qed.

(** *** The fuel of [findPaths] suffices *)

Lemma str_in_app (x : string) (xs ys : list string) :
  str_in x (xs ++ ys) = str_in x xs || str_in x ys.
Proof. unfold str_in. apply existsb_app. Qed.

Lemma unvisited_app_le (t : Topology) (V : list string) (x : string) :
  (unvisited t (V ++ [x]) <= unvisited t V)%nat.
Proof.
  unfold unvisited. induction (map name (networks t)) as [|n ns IH]; simpl; [lia|].
  rewrite str_in_app. destruct (str_in n V), (str_in n [x]); simpl; lia.
Qed.

Lemma unvisited_app_lt (t : Topology) (V : list string) (x : string) :
  In x (map name (networks t)) -> ~ In x V ->
  (unvisited t (V ++ [x]) < unvisited t V)%nat.
Proof.
  unfold unvisited. intros Hin Hnot.
  induction (map name (networks t)) as [|n ns IH]; simpl; [destruct Hin|].
  rewrite str_in_app.
  assert (Hle : (length (List.filter (fun n0 => negb (str_in n0 (V ++ [x]))) ns)
                 <= length (List.filter (fun n0 => negb (str_in n0 V)) ns))%nat).
  { clear. induction ns as [|m ms IHm]; simpl; [lia|].
    rewrite str_in_app. destruct (str_in m V), (str_in m [x]); simpl; lia. }
  destruct Hin as [-> | Hin].
  - apply str_in_not_In in Hnot. rewrite Hnot.
    assert (Hx : str_in x [x] = true) by (apply str_in_In; now left).
    rewrite Hx. simpl. lia.
  - specialize (IH Hin). destruct (str_in n V), (str_in n [x]); simpl; lia.
Qed.

Lemma unvisited_le (t : Topology) (V : list string) :
  (unvisited t V <= length (networks t))%nat.
Proof.
  unfold unvisited. rewrite <- (length_map name (networks t)).
  apply List.filter_length_le.
Qed.

Section Fuel.

Variable t : Topology.
Variable dst : STP.

Lemma findPathEndpoints_loop_total
    (recurse : STP -> STP -> option (list string) -> option (Result (list Route)))
    (src : STP) (V : list string) :
  (forall peer, ~ In (stp_network peer) V ->
                recurse peer dst (Some (V ++ [stp_network peer])) <> None) ->
  forall eps vis routes,
    visited_or_init src vis = V ->
    findPathEndpoints_loop t recurse src dst eps vis routes <> None.
Proof.
  intros Hrec eps.
  induction eps as [|ep eps IH]; intros vis routes HV; simpl; [discriminate|].
  destruct (dest_stp ep) as [peer|]; [|now apply IH].
  rewrite HV.
  destruct (str_in (stp_network peer) V) eqn:Hseen; [now apply IH|].
  apply str_in_not_In in Hseen.
  destruct (getEndpoint t (stp_network src) (stp_endpoint src)); [|discriminate].
  destruct (String.eqb (stp_network peer) (stp_network dst)).
  - destruct (getEndpoint t (stp_network peer) (stp_endpoint peer)); [|discriminate].
    destruct (getEndpoint t (stp_network dst) (stp_endpoint dst)); [|discriminate].
    now apply IH.
  - specialize (Hrec peer Hseen).
    destruct (recurse peer dst (Some (V ++ [stp_network peer]))) as [[subs|e]|];
      [now apply IH | discriminate | congruence].
Qed.

(** [findPathEndpoints] answers whenever the fuel exceeds the number
    of networks not yet visited by two. *)
Lemma findPathEndpoints_fuel (fuel : nat) :
  forall src vis,
    (unvisited t (visited_or_init src vis) + 2 <= fuel)%nat ->
    findPathEndpoints fuel t src dst vis <> None.
Proof.
  induction fuel as [|fuel IH]; intros src vis Hfuel; [lia|]. simpl.
  destruct (getNetwork t (stp_network src)) as [snw|e]; [|discriminate].
  apply (findPathEndpoints_loop_total _ src (visited_or_init src vis));
    [|reflexivity].
  intros peer Hnew.
  destruct (in_dec string_dec (stp_network peer) (map name (networks t)))
    as [Hin | Hout].
  - apply IH. simpl.
    pose proof (unvisited_app_lt t _ _ Hin Hnew). lia.
  - destruct fuel as [|fuel']; [lia|]. simpl.
    destruct (getNetwork_loop_missing _ _ Hout) as [e He].
    unfold getNetwork. rewrite He. discriminate.
Qed.

End Fuel.

(** [findPaths] always answers: it returns its paths or raises. *)
Lemma findPaths_total (t : Topology) (s d : STP) (bw : option Bandwidth) :
  exists r, findPaths t s d bw = Some r.
Proof.
  unfold findPaths.
  destruct (getNetwork t (stp_network s)) as [snw|e]; [|eauto].
  destruct (Network_getEndpoint snw (stp_endpoint s)); [|eauto].
  destruct (getNetwork t (stp_network d)) as [dnw|e]; [|eauto].
  destruct (Network_getEndpoint dnw (stp_endpoint d)); [|eauto].
  destruct (String.eqb (name snw) (name dnw)); [eauto|].
  pose proof (findPathEndpoints_fuel t d (findPaths_fuel t) s None) as Hfuel.
  destruct (findPathEndpoints (findPaths_fuel t) t s d None) as [[routes|e]|];
    [eauto | eauto |].
  exfalso. apply Hfuel; [|reflexivity].
  unfold findPaths_fuel. pose proof (unvisited_le t (visited_or_init s None)). lia.
Qed.

(** *** Paths are joined end to end *)

Lemma chained_lookup (t : Topology) (r : Route) :
  chained t r ->
  forall i l1 l2, r !! i = Some l1 -> r !! S i = Some l2 -> paired t (stp2 l1) (stp1 l2).
Proof.
  induction r as [|a r IH]; intros Hch i l1 l2 H1 H2; [discriminate|].
  destruct r as [|b r]; [discriminate|].
  destruct Hch as [Hab Hrest].
  destruct i as [|i]; simpl in H1, H2.
  - injection H1 as <-. injection H2 as <-. exact Hab.
  - exact (IH Hrest i l1 l2 H1 H2).
Qed.

Lemma findPathEndpoints_joined (t : Topology) (dst : STP) (fuel : nat) (src : STP)
    (vis : option (list string)) (routes : list Route) :
  findPathEndpoints fuel t src dst vis = Some (Ok routes) ->
  Forall (joined t dst src (visited_or_init src vis)) routes.
Proof.
  apply findPathEndpoints_routes.
  - intros s V snw ep peer source_ep lse lde _ _ Hpeer _ Hsrc _ Hlse Hlde.
    repeat split.
    + exists (mkLink source_ep ep). auto.
    + exists (mkLink lse lde). auto.
    + exists peer. auto.
  - intros s V snw ep peer source_ep sr _ _ Hpeer _ Hsrc _
           [[first [Hfirst Hfst]] [[final [Hfinal Hfin]] Hch]].
    destruct sr as [|l sr]; [discriminate|].
    injection Hfirst as ->.
    repeat split.
    + exists (mkLink source_ep ep). auto.
    + exists final. auto.
    + exists peer. auto.
    + exact Hch.
Qed.

(** C3.  Every path returned by [findPaths(s, d)] starts with a link
    whose source endpoint is the port of [s], ends with a link whose
    destination endpoint is the port of [d], and for every two adjacent
    links the destination endpoint of the first is remote-paired with
    the source endpoint of the second. *)
Theorem findPaths_joined (t : Topology) (s d : STP) (bw : option Bandwidth)
    (paths : list Path) (p : Path) :
  findPaths t s d bw = Some (Ok paths) ->
  In p paths ->
  (exists first, head (links p) = Some first /\
     getEndpoint t (stp_network s) (stp_endpoint s) = Ok (stp1 first)) /\
  (exists final, last (links p) = Some final /\
     getEndpoint t (stp_network d) (stp_endpoint d) = Ok (stp2 final)) /\
  (forall i l1 l2,
      links p !! i = Some l1 -> links p !! S i = Some l2 ->
      paired t (stp2 l1) (stp1 l2)).
Proof.
  intros Hfind Hp.
  destruct (findPaths_inv _ _ _ _ _ Hfind)
    as [sep [dep [Hs [Hd [[_ Hone] | [_ [routes [Hroutes Hsub]]]]]]]].
  - rewrite (Hone p Hp). repeat split.
    + exists (mkLink sep dep). auto.
    + exists (mkLink sep dep). auto.
    + intros i l1 l2 _ H2. destruct i; discriminate.
  - apply findPathEndpoints_joined in Hroutes.
    rewrite List.Forall_forall in Hroutes.
    destruct (Hroutes _ (Hsub p Hp)) as [Hfirst [Hfinal Hch]].
    repeat split; [exact Hfirst | exact Hfinal |].
    now apply chained_lookup.
Qed.

(** The two-hop scenario: the one path from [A:a1] to [B:b2] is joined. *)
Lemma findPaths_joined_witness :
  exists p,
    findPaths two_hop (mkSTP "A" "a1") (mkSTP "B" "b2") None = Some (Ok [p]) /\
    (exists first, head (links p) = Some first /\
       getEndpoint two_hop "A" "a1" = Ok (stp1 first)) /\
    (exists final, last (links p) = Some final /\
       getEndpoint two_hop "B" "b2" = Ok (stp2 final)) /\
    (forall i l1 l2,
        links p !! i = Some l1 -> links p !! S i = Some l2 ->
        paired two_hop (stp2 l1) (stp1 l2)).
Proof.
  eexists. split; [vm_compute; reflexivity|].
  apply (findPaths_joined two_hop (mkSTP "A" "a1") (mkSTP "B" "b2") None _ _
           eq_refl).
  now left.
Defined.

(** *** No network twice *)

Lemma getEndpoint_link_in (t : Topology) (nwn epn : string) (nw : Network)
    (ep : Endpoint) :
  getNetwork t nwn = Ok nw ->
  getEndpoint t nwn epn = Ok ep ->
  getNetwork t (name nw) = Ok nw /\ In ep (endpoints nw).
Proof.
  intros Hnw Hep. destruct (getNetwork_Ok _ _ _ Hnw) as [_ Hname].
  rewrite Hname. split; [exact Hnw|].
  apply getEndpoint_Ok in Hep. destruct Hep as [nw' [Hnw' [Hin _]]].
  rewrite Hnw in Hnw'. now injection Hnw' as <-.
Qed.

Lemma findPathEndpoints_fresh (t : Topology) (dst : STP) (fuel : nat) (src : STP)
    (vis : option (list string)) (routes : list Route) :
  findPathEndpoints fuel t src dst vis = Some (Ok routes) ->
  Forall (fresh_networks t src (visited_or_init src vis)) routes.
Proof.
  apply findPathEndpoints_routes.
  - intros s V snw ep peer source_ep lse lde Hsnw Hep _ Hnew Hsrc Hdst Hlse Hlde.
    destruct (getEndpoint_Ok _ _ _ _ Hlse) as [pnw [Hpnw _]].
    destruct (getNetwork_Ok _ _ _ Hsnw) as [_ Hsname].
    destruct (getNetwork_Ok _ _ _ Hpnw) as [_ Hpname].
    destruct (getEndpoint_link_in _ _ _ _ _ Hsnw Hsrc) as [Hs1 Hs2].
    destruct (getEndpoint_link_in _ _ _ _ _ Hpnw Hlse) as [Hp1 Hp2].
    rewrite Hdst in Hpnw.
    destruct (getEndpoint_link_in _ _ _ _ _ Hpnw Hlde) as [_ Hp3].
    exists (mkLink source_ep ep), [mkLink lse lde], snw, [pnw].
    split; [reflexivity|]. split; [now repeat split|]. split; [exact Hsname|].
    split; [constructor; [now repeat split | constructor]|].
    simpl. rewrite Hpname. split.
    + constructor; [intros []|constructor].
    + intros n [<- | []]. exact Hnew.
  - intros s V snw ep peer source_ep sr Hsnw Hep _ Hnew Hsrc _
           [l [rest [nw [nws [-> [Hl [Hname [Hrest [Hnd Hfresh]]]]]]]]].
    destruct (getNetwork_Ok _ _ _ Hsnw) as [_ Hsname].
    destruct (getEndpoint_link_in _ _ _ _ _ Hsnw Hsrc) as [Hs1 Hs2].
    exists (mkLink source_ep ep), (l :: rest), snw, (nw :: nws).
    split; [reflexivity|]. split; [now repeat split|]. split; [exact Hsname|].
    split; [now constructor|].
    simpl. rewrite Hname. split.
    + constructor; [|exact Hnd].
      intros Hin. apply (Hfresh _ Hin). apply in_or_app. right. now left.
    + intros n [<- | Hin]; [exact Hnew|].
      intros HV. apply (Hfresh _ Hin). apply in_or_app. now left.
Qed.

(** Where every port carries the name of its network, the networks read
    off the links are the networks the links lie in. *)
Lemma route_networks_link_in (t : Topology) (r : Route) (nws : list Network) :
  well_formed t = true ->
  Forall2 (link_in t) r nws ->
  route_networks r = map name nws.
Proof.
  intros Hwf. induction 1 as [|l nw r nws [Hnw [Hin _]] _ IH]; simpl; [reflexivity|].
  rewrite IH. f_equal.
  apply getNetwork_Ok in Hnw. destruct Hnw as [Hnw _].
  eapply well_formed_network; eassumption.
Qed.

(** C5.  The links of a path returned by [findPaths] lie, one after the
    other, in networks of the topology of which no two have the same
    name; where every port carries the name of its network, no network
    name appears twice among the networks read off the links. *)
Theorem findPaths_no_network_twice (t : Topology) (s d : STP) (bw : option Bandwidth)
    (paths : list Path) (p : Path) :
  findPaths t s d bw = Some (Ok paths) ->
  In p paths ->
  (exists nws,
      Forall2 (link_in t) (links p) nws /\ List.NoDup (map name nws)) /\
  (well_formed t = true -> List.NoDup (route_networks (links p))).
Proof.
  intros Hfind Hp.
  assert (Hnws : exists nws,
             Forall2 (link_in t) (links p) nws /\ List.NoDup (map name nws)).
  { destruct (findPaths_inv _ _ _ _ _ Hfind)
      as [sep [dep [Hs [Hd [[Heq Hone] | [_ [routes [Hroutes Hsub]]]]]]]].
    - rewrite (Hone p Hp).
      destruct (getEndpoint_Ok _ _ _ _ Hs) as [snw [Hsnw _]].
      destruct (getEndpoint_link_in _ _ _ _ _ Hsnw Hs) as [Hs1 Hs2].
      rewrite Heq in Hsnw.
      destruct (getEndpoint_link_in _ _ _ _ _ Hsnw Hd) as [_ Hd2].
      exists [snw]. split.
      + constructor; [now repeat split | constructor].
      + simpl. constructor; [intros []|constructor].
    - apply findPathEndpoints_fresh in Hroutes.
      rewrite List.Forall_forall in Hroutes.
      destruct (Hroutes _ (Hsub p Hp))
        as [l [rest [nw [nws [-> [Hl [Hname [Hrest [Hnd Hfresh]]]]]]]]].
      exists (nw :: nws). split; [now constructor|].
      simpl. constructor; [|exact Hnd].
      rewrite Hname. intros Hin. apply (Hfresh _ Hin). now left. }
  split; [exact Hnws|].
  intros Hwf. destruct Hnws as [nws [Hin Hnd]].
  now rewrite (route_networks_link_in _ _ _ Hwf Hin).
Qed.

(** In the triangle both paths from [A:a1] to [C:c1] visit each of
    their networks once. *)
Lemma findPaths_no_network_twice_witness :
  exists p q,
    findPaths triangle (mkSTP "A" "a1") (mkSTP "C" "c1") None = Some (Ok [p; q]) /\
    route_networks (links p) = ["A"; "B"; "C"] /\
    route_networks (links q) = ["A"; "C"] /\
    List.NoDup (route_networks (links p)) /\
    List.NoDup (route_networks (links q)).
Proof.
  do 2 eexists. split; [vm_compute; reflexivity|].
  split; [reflexivity|]. split; [reflexivity|].
  split.
  - apply (findPaths_no_network_twice triangle (mkSTP "A" "a1") (mkSTP "C" "c1")
             None _ _ eq_refl); [now left | reflexivity].
  - apply (findPaths_no_network_twice triangle (mkSTP "A" "a1") (mkSTP "C" "c1")
             None _ _ eq_refl); [right; now left | reflexivity].
Defined.

(** *** The order of the paths *)


(** *** The VLAN tag *)

Lemma list_ascii_of_string_app (a b : string) :
  list_ascii_of_string (a +:+ b) = list_ascii_of_string a ++ list_ascii_of_string b.
Proof. induction a as [|c a IH]; simpl; [reflexivity|]. now rewrite IH. Qed.

Lemma has_digit_filter (s : string) :
  has_digit s = false -> List.filter isdigit (list_ascii_of_string s) = [].
Proof.
  unfold has_digit. induction (list_ascii_of_string s) as [|c l IH]; simpl; [reflexivity|].
  destruct (isdigit c); simpl; [discriminate|exact IH].
Qed.

Lemma slice_last_snoc {A} (l : list A) (x : A) : slice_last (l ++ [x]) = [x].
Proof. unfold slice_last. now rewrite rev_unit. Qed.

(** C6, as stated, fails on both counts: for [port9] the last digit is
    9 and the tag is 5; for [eth] the code point of [h], 104, is 0
    modulo 4 and the tag is 100. *)
Lemma vlan_tag_counterexample :
  (stated_vlan_tag "port9" = Some 9 /\ vlan "port9" = Ok 5) /\
  (stated_vlan_tag "eth" = Some 0 /\ vlan "eth" = Ok 100).
Proof. repeat split. Qed.

(** C6, amended.  The tag is computed from the last decimal digit [d]
    of the port name as [d] when [d <= 3] and [d - 4] otherwise; when
    the name has no digit it is computed the same way from the code
    point of the last character of the name. *)
Theorem vlan_tag (pre suf : string) (c : ascii) :
  has_digit suf = false ->
  (isdigit c = true ->
   vlan (pre +:+ String c suf)
   = Ok (if 3 <? int_of_digit c then int_of_digit c - 4 else int_of_digit c)) /\
  (isdigit c = false -> has_digit pre = false -> suf = EmptyString ->
   vlan (pre +:+ String c suf)
   = Ok (if 3 <? ord c then ord c - 4 else ord c)).
Proof.
  intros Hsuf. unfold vlan. rewrite list_ascii_of_string_app. simpl.
  rewrite List.filter_app. simpl. rewrite (has_digit_filter _ Hsuf).
  split.
  - intros Hc. rewrite Hc. rewrite slice_last_snoc. reflexivity.
  - intros Hc Hpre ->. rewrite Hc, (has_digit_filter _ Hpre). simpl.
    unfold last_char. rewrite list_ascii_of_string_app. simpl.
    rewrite rev_unit. reflexivity.
Qed.

(** Every port name is empty, or has a last digit, or has no digit and a
    last character: the two cases of [vlan_tag] cover the names that
    are not empty. *)
Lemma port_name_cases (nm : string) :
  nm = EmptyString \/
  (exists pre c suf,
      nm = pre +:+ String c suf /\ isdigit c = true /\ has_digit suf = false) \/
  (exists pre c,
      nm = pre +:+ String c EmptyString /\ isdigit c = false /\ has_digit pre = false).
Proof.
  induction nm as [|a nm IH]; [now left|]. right.
  destruct IH as [-> | [[pre [c [suf [-> [Hc Hsuf]]]]] | [pre [c [-> [Hc Hpre]]]]]].
  - destruct (isdigit a) eqn:Ha.
    + left. exists EmptyString, a, EmptyString. auto.
    + right. exists EmptyString, a. auto.
  - left. exists (String a pre), c, suf. auto.
  - destruct (isdigit a) eqn:Ha.
    + left. exists EmptyString, a, (pre +:+ String c EmptyString).
      repeat split; [exact Ha|].
      unfold has_digit in *. rewrite list_ascii_of_string_app, existsb_app, Hpre.
      simpl. now rewrite Hc.
    + right. exists (String a pre), c. repeat split; [exact Hc|].
      unfold has_digit in *. simpl. now rewrite Ha.
Qed.

(** The name without a character has no last character to read. *)
Example vlan_empty_name : vlan "" = Raise (IndexError "string index out of range").
Proof. reflexivity. Qed.

Lemma vlan_tag_witness : vlan "port9" = Ok 5 /\ vlan "eth" = Ok 100.
Proof.
  split.
  - apply (proj1 (vlan_tag "port" "" "9" eq_refl) eq_refl).
  - apply (proj2 (vlan_tag "et" "" "h" eq_refl) eq_refl eq_refl eq_refl).
Defined.

(** *** Unique network names *)

Lemma NoDup_snoc {A} (l : list A) (x : A) :
  List.NoDup l -> ~ In x l -> List.NoDup (l ++ [x]).
Proof.
  intros Hnd Hx. induction Hnd as [|a l Ha Hnd IH]; simpl.
  - constructor; [intros []|constructor].
  - constructor.
    + intros Hin. apply in_app_or in Hin. destruct Hin as [Hin | [-> | []]].
      * now apply Ha.
      * apply Hx. now left.
    + apply IH. intros Hin. apply Hx. now right.
Qed.

Lemma built_NoDup (t : Topology) : built t -> List.NoDup (map name (networks t)).
Proof.
  induction 1 as [|t t' nw _ IH Hadd]; simpl; [constructor|].
  unfold addNetwork in Hadd.
  destruct (str_in (name nw) (map name (networks t))) eqn:Hin; [discriminate|].
  injection Hadd as <-. simpl. rewrite map_app. simpl.
  apply NoDup_snoc; [exact IH|]. now apply str_in_not_In.
Qed.

(** C9.  [addNetwork] raises [TopologyError] when a network of the
    same name is present; so in a topology built by [addNetwork] calls
    that returned, the network names are unique and [getNetwork] of
    the name of a network of the topology returns that network. *)
Theorem addNetwork_unique_names (t : Topology) :
  (forall nw, In (name nw) (map name (networks t)) ->
              exists msg, addNetwork t nw = Raise (TopologyError msg)) /\
  (built t ->
   List.NoDup (map name (networks t)) /\
   (forall nw, In nw (networks t) -> getNetwork t (name nw) = Ok nw) /\
   (forall nw nw', In nw (networks t) -> In nw' (networks t) ->
                   name nw = name nw' -> nw = nw')).
Proof.
  split.
  - intros nw Hin. unfold addNetwork.
    apply str_in_In in Hin. rewrite Hin. eauto.
  - intros Hb. pose proof (built_NoDup t Hb) as Hnd.
    assert (Hget : forall nw, In nw (networks t) -> getNetwork t (name nw) = Ok nw)
      by (intros nw Hin; now apply getNetwork_loop_unique).
    split; [exact Hnd|]. split; [exact Hget|].
    intros nw nw' Hin Hin' Heq.
    pose proof (Hget nw Hin) as H1. pose proof (Hget nw' Hin') as H2.
    rewrite Heq in H1. congruence.
Qed.

Lemma addNetwork_unique_names_witness :
  built two_hop /\
  (exists msg, addNetwork two_hop (mkNetwork "A" []) = Raise (TopologyError msg)) /\
  List.NoDup (map name (networks two_hop)) /\
  getNetwork two_hop "B" = Ok two_hop_B.
Proof.
  assert (Hb : built two_hop).
  { apply (built_add (mkTopology [two_hop_A]) two_hop two_hop_B); [|reflexivity].
    apply (built_add empty _ two_hop_A); [apply built_empty | reflexivity]. }
  split; [exact Hb|].
  destruct (addNetwork_unique_names two_hop) as [Hdup Hbuilt].
  destruct (Hbuilt Hb) as [Hnd [Hget _]].
  split; [apply Hdup; simpl; auto|].
  split; [exact Hnd|].
  apply (Hget two_hop_B). right. now left.
Defined.

End TopologyFacts.

(** ** Properties of the aggregator *)

Module AggregatorFacts.

Import Topology Aggregator Spec.

(** *** The sort of the paths in [reserve] *)

Section Sorting.

Context {A : Type} (key : A -> nat).





End Sorting.



(** *** [terminate] on a terminated connection *)

(** C2.  For a connection whose lifecycle state is [TERMINATED],
    [terminate] returns the connection id and leaves the world as it
    found it: the store is not changed and no handler is called. *)
Theorem terminate_idempotent
    (state_fn : Transition -> StateArg -> Store -> Result unit * Store)
    (handler : Event -> Locality -> string -> string -> string -> Store
               -> Outcome string * Store)
    (self : Self) (requester_nsa provider_nsa : string)
    (session_security_attr : option string) (cid : string)
    (w : World) (conn : ServiceConnection) :
  fst (getConnection requester_nsa cid w) = Ok conn ->
  lifecycle_state conn = TERMINATED ->
  terminate state_fn handler self requester_nsa provider_nsa session_security_attr cid w
  = (Ok cid, w).
Proof.
  unfold terminate, getConnection, bindM, ServiceConnection_findBy.
  destruct (List.filter _ _) as [|c rest]; simpl; [discriminate|].
  intros [= ->] ->. reflexivity.
Qed.

(** A second [Terminate] of the terminated connection, with a state
    machine and handlers that would leave their mark. *)
Lemma terminate_idempotent_witness :
  fst (getConnection "urn:requester" "0123456789ab" world_terminated)
  = Ok terminated_parent /\
  terminate example_state_fn example_handler aggregator_A
    "urn:requester" "urn:nsa:A" None "0123456789ab" world_terminated
  = (Ok "0123456789ab", world_terminated).
Proof.
  split; [reflexivity|].
  apply (terminate_idempotent example_state_fn example_handler aggregator_A
           "urn:requester" "urn:nsa:A" None "0123456789ab" world_terminated
           terminated_parent); reflexivity.
Defined.

(** On a connection that is not terminated the same call does reach
    the state machine and the handler of the leg. *)
Example terminate_live_connection :
  let r := terminate example_state_fn example_handler aggregator_A
             "urn:requester" "urn:nsa:A" None "0123456789ab" world_partial_failure in
  fst r = Ok "0123456789ab" /\
  dispatched (snd r) = [mkDispatch TERMINATE NSI2_LOCAL "urn:nsa:A" "urn:nsa:A" "leg-A"] /\
  map lifecycle_state (service_connections (store (snd r))) = [TERMINATED].
Proof. repeat split. Qed.

(** *** The aggregate error *)

(** With two legs of which one failed, building the message reads the
    name [self], which the module does not define, and the error of
    the leg is not returned. *)
Lemma aggregate_error_two_legs :
  failures_of partial_failure = [OtherError "ReserveError" "port b2 is in use"] /\
  _createAggregateException module_globals partial_failure "reservations"
    ConnectionCreateError
  = Raise (NameError "global name 'self' is not defined").
Proof. split; reflexivity. Qed.

(** Were the two names bound, the message of the same fan-out would
    carry the count and the curator in front of the message of the
    leg: the plain message is kept for a fan-out of a single leg. *)
Example aggregate_error_two_legs_bound :
  _createAggregateException
    (mkGlobals (Some (mkBoundSelf [mkLegConnection "urn:nsa:A"; mkLegConnection "urn:nsa:B"]
                                  "0123456789ab"))
               (Some (fun _ => "<B:bx--B:b2>")))
    partial_failure "reservations" ConnectionCreateError
  = Ok (ConnectionCreateError
          "1/2 reservations failed: urn:nsa:B <B:bx--B:b2> port b2 is in use").
Proof. reflexivity. Qed.

(** For a fan-out of exactly one leg, which failed,
    [_createAggregateException] returns the failure of that leg
    itself, with the message of the leg unchanged. *)
Theorem aggregate_error_single_leg {A : Type} (g : Globals) (results : list (Outcome A))
    (f : Exn) (action : string) (default_error : string -> Exn) :
  length results = 1%nat ->
  failures_of results = [f] ->
  _createAggregateException g results action default_error = Ok f /\
  (forall e, _createAggregateException g results action default_error = Ok e ->
             getErrorMessage e = getErrorMessage f).
Proof.
  intros Hlen Hfail.
  assert (H : _createAggregateException g results action default_error = Ok f).
  { unfold _createAggregateException. rewrite Hfail, Hlen. reflexivity. }
  split; [exact H|]. intros e He. congruence.
Qed.

Lemma aggregate_error_single_leg_witness :
  _createAggregateException module_globals
    [Failed (A := Subconnection) (OtherError "ReserveError" "port b2 is in use")]
    "reservations" ConnectionCreateError
  = Ok (OtherError "ReserveError" "port b2 is in use").
Proof.
  apply (aggregate_error_single_leg module_globals
           [Failed (A := Subconnection) (OtherError "ReserveError" "port b2 is in use")]
           _ "reservations" ConnectionCreateError eq_refl eq_refl).
Defined.

(** *** The connection id *)

Lemma repeatM_random_choice (c0 : ascii) (seq' : list ascii) (n : nat) :
  forall w,
    repeatM n (random_choice (c0 :: seq')) w
    = (Ok (drawn (c0 :: seq') c0 (draws (random w)) (cursor (random w)) n),
       mkWorld (store w) (dispatched w)
               (mkRandom (draws (random w)) (n + cursor (random w)))).
Proof.
  induction n as [|n IH]; intros w.
  - destruct w as [st ds [dr cu]]. reflexivity.
  - cbn [repeatM]. unfold bindM at 1. unfold random_choice at 1.
    unfold bindM. rewrite IH. cbn [store dispatched random draws cursor drawn ret].
    now rewrite Nat.add_succ_r.
Qed.

Lemma drawn_length (seq : list ascii) (d : ascii) (dr : nat -> nat) (n : nat) :
  forall cu, length (drawn seq d dr cu n) = n.
Proof. induction n as [|n IH]; intros cu; simpl; [reflexivity|]. now rewrite IH. Qed.

Lemma drawn_in (seq : list ascii) (d : ascii) (dr : nat -> nat) (n : nat) :
  seq <> [] -> forall cu, Forall (fun c => In c seq) (drawn seq d dr cu n).
Proof.
  intros Hseq. induction n as [|n IH]; intros cu; cbn [drawn]; constructor.
  - apply nth_In. apply Nat.mod_upper_bound. now destruct seq.
  - apply IH.
Qed.

Lemma length_string_of_list_ascii (l : list ascii) :
  String.length (string_of_list_ascii l) = length l.
Proof. induction l as [|c l IH]; simpl; [reflexivity|]. now rewrite IH. Qed.

(** C8, as stated, fails in its second half: the id is not compared
    with the store.  With a generator that draws zeros and a store
    that holds a connection with the id [000000000000], [reserve]
    assigns that very id, after twelve draws and no more. *)
Lemma connection_id_collision :
  fst (ServiceConnection_exists "000000000000" world_collision) = Ok true /\
  fst (reserve_connection_id None world_collision) = Ok "000000000000" /\
  cursor (random (snd (reserve_connection_id None world_collision))) = 12%nat.
Proof. repeat split. Qed.

(** C8, amended.  Every connection id [reserve] assigns is a string
    of 12 characters over [0-9a-f]; it is made of twelve draws of the
    random generator and does not depend on the connection store,
    which is neither read nor changed. *)
Theorem connection_id_format (w : World) :
  (exists cid,
      fst (reserve_connection_id None w) = Ok cid /\
      String.length cid = 12%nat /\
      Forall (fun c => In c hex16) (list_ascii_of_string cid)) /\
  store (snd (reserve_connection_id None w)) = store w /\
  cursor (random (snd (reserve_connection_id None w))) = (12 + cursor (random w))%nat /\
  (forall st ds,
      fst (reserve_connection_id None (mkWorld st ds (random w)))
      = fst (reserve_connection_id None w)).
Proof.
  assert (Hrun : forall w0,
             reserve_connection_id None w0
             = (Ok (string_of_list_ascii
                      (drawn hex16 "0"%char (draws (random w0)) (cursor (random w0)) 12)),
                mkWorld (store w0) (dispatched w0)
                        (mkRandom (draws (random w0)) (12 + cursor (random w0))))).
  { intros w0. unfold reserve_connection_id, bindM.
    change (list_ascii_of_string (substring 0 16 hexdigits))
      with ("0"%char :: tl hex16).
    rewrite repeatM_random_choice. reflexivity. }
  rewrite Hrun. cbn [fst snd store random cursor].
  split; [|split; [reflexivity|split; [reflexivity|]]].
  - eexists. split; [reflexivity|]. split.
    + now rewrite length_string_of_list_ascii, drawn_length.
    + rewrite list_ascii_of_string_of_list_ascii.
      apply drawn_in. discriminate.
  - intros st ds. now rewrite Hrun.
Qed.

(** *** [reserve] after a failed leg *)

Lemma forM_on_store {A B : Type} (f : A -> Store -> B * Store) (xs : list A) :
  forall w, exists ys st,
    forM xs (fun x => on_store (f x)) w
    = (Ok ys, mkWorld st (dispatched w) (random w)).
Proof.
  induction xs as [|x xs IH]; intros w.
  - exists [], (store w). destruct w. reflexivity.
  - cbn [forM]. unfold bindM at 1. unfold on_store at 1.
    destruct (f x (store w)) as [b st1].
    destruct (IH (mkWorld st1 (dispatched w) (random w))) as [ys [st Hrun]].
    exists (b :: ys), st. unfold bindM. rewrite Hrun. reflexivity.
Qed.

(** C1: the code departs from the claim.  Whatever the state machine
    and the compensations do, when a leg of the fan-out failed [reserve]
    ends in the [TypeError] of calling [_createAggregateFailure], which
    has two parameters, with three arguments, so no
    [ConnectionCreateError] is built; and the only call of the state
    machine is [terminatedFailed] applied to the result list of the
    compensations, not to the parent connection. *)
Theorem reserve_partial_failure_TypeError
    (state_fn : Transition -> StateArg -> Store -> Result unit * Store)
    (Subconnection_terminate : Subconnection -> Store -> Outcome unit * Store)
    (ServiceParameters : Type) (conn : ServiceConnection)
    (reply : string * option string * option string * ServiceParameters)
    (results : list (Outcome Subconnection)) (w : World) :
  all (map success results) = false ->
  fst (reserve_complete state_fn Subconnection_terminate ServiceParameters
         conn reply results w)
  = Raise (TypeError "_createAggregateFailure() takes exactly 2 arguments (3 given)") /\
  exists defs w1,
    forM (successes_of results) (fun rc => on_store (Subconnection_terminate rc)) w
    = (Ok defs, w1) /\
    snd (reserve_complete state_fn Subconnection_terminate ServiceParameters
           conn reply results w)
    = snd (state_call state_fn terminatedFailed
             (OnResults (map compensation_flag defs)) w1).
Proof.
  intros Hfail.
  destruct (forM_on_store Subconnection_terminate (successes_of results) w)
    as [defs [st Hrun]].
  assert (Hall :
            reserve_complete state_fn Subconnection_terminate ServiceParameters
              conn reply results w
            = (Raise (TypeError
                        "_createAggregateFailure() takes exactly 2 arguments (3 given)"),
               snd (state_call state_fn terminatedFailed
                      (OnResults (map compensation_flag defs))
                      (mkWorld st (dispatched w) (random w))))).
  { unfold reserve_complete. rewrite Hfail. unfold bindM. rewrite Hrun.
    unfold unawaited.
    destruct (state_call state_fn terminatedFailed _ _) as [r w']. reflexivity. }
  rewrite Hall. split; [reflexivity|].
  exists defs, (mkWorld st (dispatched w) (random w)). split; [exact Hrun | reflexivity].
Qed.

(** The two-hop reservation whose leg in [B] failed: the [TypeError] is
    raised, the parent is not [TERMINATED_FAILED] and the record of the
    leg in [A] is still [RESERVE_HELD]. *)
Lemma reserve_partial_failure_TypeError_witness :
  let r := reserve_complete example_state_fn example_terminate unit parent
             ("0123456789ab", None, None, tt) partial_failure world_partial_failure in
  fst r = Raise (TypeError "_createAggregateFailure() takes exactly 2 arguments (3 given)") /\
  map lifecycle_state (service_connections (store (snd r))) = [INITIAL] /\
  map sub_reservation_state (subconnections (store (snd r))) = [RESERVE_HELD].
Proof.
  split; [|split; reflexivity].
  apply (reserve_partial_failure_TypeError example_state_fn example_terminate unit
           parent ("0123456789ab", None, None, tt) partial_failure
           world_partial_failure eq_refl).
Defined.

Lemma one_failure_not_all {A : Type} (results : list (Outcome A)) (f : Exn) :
  failures_of results = [f] -> all (map success results) = false.
Proof.
  induction results as [|[a|e] results IH]; simpl; [discriminate| |reflexivity].
  intros H. exact (IH H).
Qed.

(** C7: the code departs from the claim.  When exactly one leg of the
    fan-out failed, the aggregate error does not reach the requester:
    [reserve] ends in the [TypeError] of calling
    [_createAggregateFailure], which has two parameters, with three
    arguments, whatever the number of legs, the state machine and the
    compensations.  What the helper itself would build from the same
    results is the failure of the leg for a fan-out of one leg only; for
    any other number of legs it ends in the [NameError] of reading the
    name [self], which the module does not define. *)
Theorem aggregate_error_not_surfaced
    (state_fn : Transition -> StateArg -> Store -> Result unit * Store)
    (Subconnection_terminate : Subconnection -> Store -> Outcome unit * Store)
    (ServiceParameters : Type) (conn : ServiceConnection)
    (reply : string * option string * option string * ServiceParameters)
    (results : list (Outcome Subconnection)) (f : Exn) (w : World) :
  failures_of results = [f] ->
  fst (reserve_complete state_fn Subconnection_terminate ServiceParameters
         conn reply results w)
  = Raise (TypeError "_createAggregateFailure() takes exactly 2 arguments (3 given)") /\
  (length results = 1%nat ->
   _createAggregateFailure results "reservations" = Ok f) /\
  (length results <> 1%nat ->
   _createAggregateFailure results "reservations"
   = Raise (NameError "global name 'self' is not defined")).
Proof.
  intros Hf. split; [|split].
  - destruct (forM_on_store Subconnection_terminate (successes_of results) w)
      as [defs [st Hrun]].
    unfold reserve_complete. rewrite (one_failure_not_all results f Hf).
    unfold bindM. rewrite Hrun. unfold unawaited.
    destruct (state_call state_fn terminatedFailed _ _) as [r w']. reflexivity.
  - intros Hlen. unfold _createAggregateFailure, _createAggregateException.
    rewrite Hf, Hlen. reflexivity.
  - intros Hlen. unfold _createAggregateFailure, _createAggregateException.
    rewrite Hf. apply Nat.eqb_neq in Hlen. rewrite Hlen. reflexivity.
Qed.

(** The reservation of a single leg, which failed with the message
    [port a2 is in use]: the requester gets the [TypeError], whose
    message is not that of the leg. *)
Lemma aggregate_error_not_surfaced_witness :
  failures_of [Failed (A := Subconnection) (OtherError "ReserveError" "port a2 is in use")]
  = [OtherError "ReserveError" "port a2 is in use"] /\
  fst (reserve_complete example_state_fn example_terminate unit parent
         ("0123456789ab", None, None, tt)
         [Failed (OtherError "ReserveError" "port a2 is in use")]
         world_reserving)
  = Raise (TypeError "_createAggregateFailure() takes exactly 2 arguments (3 given)").
Proof.
  split; [reflexivity|].
  apply (aggregate_error_not_surfaced example_state_fn example_terminate unit parent
           ("0123456789ab", None, None, tt)
           [Failed (OtherError "ReserveError" "port a2 is in use")]
           (OtherError "ReserveError" "port a2 is in use") world_reserving eq_refl).
Defined.

(** A reservation of a single leg that failed ends the same way, with
    no compensation to run. *)
Example reserve_single_leg_failure :
  reserve_complete example_state_fn example_terminate unit parent
    ("0123456789ab", None, None, tt)
    [Failed (OtherError "ReserveError" "port a2 is in use")]
    (mkWorld (mkStore [parent] []) [] no_draws)
  = (Raise (TypeError "_createAggregateFailure() takes exactly 2 arguments (3 given)"),
     mkWorld (mkStore [parent] []) [] no_draws).
Proof. reflexivity. Qed.

(** When every leg succeeded the parent does advance to [RESERVE_HELD]
    and the reply is returned. *)
Example reserve_all_legs_succeeded :
  let r := reserve_complete example_state_fn example_terminate unit parent
             ("0123456789ab", None, None, tt) [Succeeded leg_A] world_partial_failure in
  fst r = Ok ("0123456789ab", None, None, tt) /\
  map reservation_state (service_connections (store (snd r))) = [RESERVE_HELD].
Proof. split; reflexivity. Qed.

End AggregatorFacts.

(** ** Properties of the NSI2 provider *)

Module ProviderFacts.

Import Provider Spec.

Section Confirmations.

Variable ServiceParameters : Type.
Variable provider_client : ClientCall ServiceParameters -> Result Deferred.

Lemma confirm_stored (self : State ServiceParameters) (key : string * string)
    (call : Header -> ClientCall ServiceParameters) (h : Header) :
  notifications _ self !! key = Some h ->
  snd (confirm _ provider_client self key call)
  = mkState _ (delete key (notifications _ self)) (client_calls _ self ++ [call h]).
Proof.
  intros Hh. unfold confirm, pop. rewrite Hh.
  destruct (provider_client (call h)) as [d|[]]; reflexivity.
Qed.

Lemma confirm_missing (self : State ServiceParameters) (key : string * string)
    (call : Header -> ClientCall ServiceParameters) :
  notifications _ self !! key = None ->
  confirm _ provider_client self key call = (Ok (Succeeded None), self).
Proof. intros Hh. unfold confirm, pop. now rewrite Hh. Qed.

Lemma deliver_confirm (self : State ServiceParameters)
    (c : Confirmation ServiceParameters) :
  deliver _ provider_client self c
  = confirm _ provider_client self (notification_key _ c) (client_call_of _ c).
Proof. destruct c; reflexivity. Qed.

(** C10.  For each of the four confirmations: when a header is
    stored under [(connection_id, response type)], the confirmation
    removes it and calls the provider client with it, so that the
    same confirmation delivered again finds none; and a confirmation
    for which no header is stored returns [defer.succeed(None)]
    without raising, calls nothing and changes nothing. *)
Theorem confirmation_consumes_header (self : State ServiceParameters)
    (c : Confirmation ServiceParameters) :
  (forall h,
      notifications _ self !! notification_key _ c = Some h ->
      let self' := snd (deliver _ provider_client self c) in
      notifications _ self' = delete (notification_key _ c) (notifications _ self) /\
      client_calls _ self' = client_calls _ self ++ [client_call_of _ c h] /\
      deliver _ provider_client self' c = (Ok (Succeeded None), self')) /\
  (notifications _ self !! notification_key _ c = None ->
   deliver _ provider_client self c = (Ok (Succeeded None), self)).
Proof.
  rewrite deliver_confirm. split.
  - intros h Hh. cbn zeta. rewrite (confirm_stored _ _ _ h Hh).
    split; [reflexivity|]. split; [reflexivity|].
    rewrite deliver_confirm. apply confirm_missing.
    cbn [notifications]. apply lookup_delete_eq.
  - apply confirm_missing.
Qed.

End Confirmations.

(** A [terminate] request with a reply address, confirmed twice, and a
    confirmation nobody asked for. *)
Lemma confirmation_consumes_header_witness :
  let self := terminate unit (init unit) requester_header "c1" in
  let c := TerminateConfirmed unit requester_header "c1" in
  let self' := snd (deliver unit acknowledging_client self c) in
  notifications _ self !! ("c1", TERMINATE_RESPONSE) = Some requester_header /\
  notifications _ self' !! ("c1", TERMINATE_RESPONSE) = None /\
  client_calls _ self'
  = [client_terminateConfirmed unit (Some "http://requester.example/nsi")
       "urn:requester" "urn:provider" "corr-1" "c1"] /\
  deliver unit acknowledging_client self' c = (Ok (Succeeded None), self') /\
  deliver unit acknowledging_client (init unit) c = (Ok (Succeeded None), init unit).
Proof.
  cbn zeta.
  assert (Hstored0 :
            notifications _ (terminate unit (init unit) requester_header "c1")
              !! ("c1", TERMINATE_RESPONSE) = Some requester_header)
    by apply lookup_insert_eq.
  pose proof (confirmation_consumes_header unit acknowledging_client
                (terminate unit (init unit) requester_header "c1")
                (TerminateConfirmed unit requester_header "c1")) as [Hstored _].
  specialize (Hstored requester_header Hstored0).
  cbn zeta in Hstored. destruct Hstored as [Hn [Hc Hagain]].
  split; [exact Hstored0|]. split; [|split; [|split]].
  - rewrite Hn. apply lookup_delete_eq.
  - exact Hc.
  - exact Hagain.
  - apply (proj2 (confirmation_consumes_header unit acknowledging_client (init unit)
                    (TerminateConfirmed unit requester_header "c1"))).
    apply lookup_empty.
Defined.

End ProviderFacts.

(** ** Further properties of the topology *)

Module TopologyExtras.

Import Topology Spec TopologyFacts.

(** *** Lookups *)

Lemma getNetwork_loop_split (nws : list Network) (n : string) (nw : Network) :
  getNetwork_loop nws n = Ok nw <->
  exists pre post,
    nws = pre ++ nw :: post /\ name nw = n /\ ~ In n (map name pre).
Proof.
  split.
  - induction nws as [|a nws IH]; simpl; [discriminate|].
    destruct (String.eqb (name a) n) eqn:E.
    + intros [= ->]. apply String.eqb_eq in E. exists [], nws. simpl. tauto.
    + intros H. destruct (IH H) as [pre [post [-> [Hn Hpre]]]].
      apply String.eqb_neq in E.
      exists (a :: pre), post. simpl. repeat split; [exact Hn|]. tauto.
  - intros [pre [post [-> [Hn Hpre]]]].
    induction pre as [|a pre IH]; simpl.
    + apply String.eqb_eq in Hn. now rewrite Hn.
    + simpl in Hpre. destruct (String.eqb (name a) n) eqn:E.
      * apply String.eqb_eq in E. tauto.
      * apply IH. tauto.
Qed.

Lemma getNetwork_loop_raises (nws : list Network) (n : string) (e : Exn) :
  getNetwork_loop nws n = Raise e ->
  e = TopologyError ("No network named " +:+ n) /\ ~ In n (map name nws).
Proof.
  induction nws as [|a nws IH]; simpl.
  - intros [= <-]. tauto.
  - destruct (String.eqb (name a) n) eqn:E; [discriminate|].
    apply String.eqb_neq in E. intros H. destruct (IH H). tauto.
Qed.

(** X1.  [getNetwork] returns the first network of the given name in the
    order the networks were added, and raises [TopologyError] with the
    message [No network named <name>] exactly when no network has that
    name. *)
Theorem getNetwork_first_match (t : Topology) (n : string) :
  (forall nw,
      getNetwork t n = Ok nw <->
      exists pre post,
        networks t = pre ++ nw :: post /\ name nw = n /\ ~ In n (map name pre)) /\
  (forall e,
      getNetwork t n = Raise e <->
      e = TopologyError ("No network named " +:+ n) /\ ~ In n (map name (networks t))).
Proof.
  split.
  - intros nw. apply getNetwork_loop_split.
  - intros e. split; [apply getNetwork_loop_raises|].
    intros [-> Hn]. destruct (getNetwork_loop_missing _ _ Hn) as [e He].
    unfold getNetwork. rewrite He. f_equal.
    now destruct (getNetwork_loop_raises _ _ _ He).
Qed.

Lemma getEndpoint_loop_split (eps : list Endpoint) (err : Exn) (n : string) (ep : Endpoint) :
  getEndpoint_loop eps err n = Ok ep <->
  exists pre post,
    eps = pre ++ ep :: post /\ endpoint ep = n /\ ~ In n (map endpoint pre).
Proof.
  split.
  - induction eps as [|a eps IH]; simpl; [discriminate|].
    destruct (String.eqb (endpoint a) n) eqn:E.
    + intros [= ->]. apply String.eqb_eq in E. exists [], eps. simpl. tauto.
    + intros H. destruct (IH H) as [pre [post [-> [Hn Hpre]]]].
      apply String.eqb_neq in E.
      exists (a :: pre), post. simpl. repeat split; [exact Hn|]. tauto.
  - intros [pre [post [-> [Hn Hpre]]]].
    induction pre as [|a pre IH]; simpl.
    + apply String.eqb_eq in Hn. now rewrite Hn.
    + simpl in Hpre. destruct (String.eqb (endpoint a) n) eqn:E.
      * apply String.eqb_eq in E. tauto.
      * apply IH. tauto.
Qed.

Lemma getEndpoint_loop_raises (eps : list Endpoint) (err : Exn) (n : string) :
  (exists e, getEndpoint_loop eps err n = Raise e) <-> ~ In n (map endpoint eps).
Proof.
  induction eps as [|a eps IH]; simpl.
  - split; [tauto | eauto].
  - destruct (String.eqb (endpoint a) n) eqn:E.
    + apply String.eqb_eq in E. split; [intros [e He]; discriminate | tauto].
    + apply String.eqb_neq in E. rewrite IH. tauto.
Qed.

Lemma getEndpoint_loop_raises_err (eps : list Endpoint) (err : Exn) (n : string) (e : Exn) :
  getEndpoint_loop eps err n = Raise e -> e = err.
Proof.
  induction eps as [|a eps IH]; simpl; [congruence|].
  destruct (String.eqb (endpoint a) n); [discriminate | exact IH].
Qed.

(** X2.  [getEndpoint] returns the first port of the given name of the
    network [getNetwork] finds; it passes on the [TopologyError] of an
    unknown network, and raises [TopologyError] with the message
    [No endpoint named <port> for network <network>] when the network
    has no port of that name. *)
Theorem getEndpoint_first_match (t : Topology) (nwn epn : string) :
  (forall ep,
      getEndpoint t nwn epn = Ok ep <->
      exists nw pre post,
        getNetwork t nwn = Ok nw /\
        endpoints nw = pre ++ ep :: post /\ endpoint ep = epn /\
        ~ In epn (map endpoint pre)) /\
  (forall e, getNetwork t nwn = Raise e -> getEndpoint t nwn epn = Raise e) /\
  (forall nw,
      getNetwork t nwn = Ok nw ->
      ~ In epn (map endpoint (endpoints nw)) ->
      getEndpoint t nwn epn
      = Raise (TopologyError ("No endpoint named " +:+ epn +:+ " for network " +:+ nwn))).
Proof.
  unfold getEndpoint. split; [|split].
  - intros ep. destruct (getNetwork t nwn) as [nw|e]; simpl.
    + rewrite getEndpoint_loop_split. split.
      * intros [pre [post H]]. now exists nw, pre, post.
      * intros [nw' [pre [post [[= <-] H]]]]. now exists pre, post.
    + split; [discriminate|]. intros [nw' [pre [post [H _]]]]. discriminate.
  - intros e ->. reflexivity.
  - intros nw -> Hn. simpl.
    apply (getEndpoint_loop_raises _
             (TopologyError ("No endpoint named " +:+ epn +:+ " for network " +:+ nwn)))
      in Hn.
    destruct Hn as [e He]. rewrite He. f_equal.
    now apply getEndpoint_loop_raises_err in He.
Qed.

Lemma getNetwork_loop_snoc (nws : list Network) (nw : Network) (n : string) :
  getNetwork_loop (nws ++ [nw]) n
  = match getNetwork_loop nws n with
    | Ok found => Ok found
    | Raise e => if String.eqb (name nw) n then Ok nw else Raise e
    end.
Proof.
  induction nws as [|a nws IH]; simpl.
  - destruct (String.eqb (name nw) n); reflexivity.
  - destruct (String.eqb (name a) n); [reflexivity | exact IH].
Qed.

(** X3.  After an [addNetwork] that returned, [getNetwork] of the new
    name returns the network added, every other name is looked up as
    before, and the networks already present keep their places. *)
Theorem addNetwork_getNetwork (t t' : Topology) (nw : Network) :
  addNetwork t nw = Ok t' ->
  getNetwork t' (name nw) = Ok nw /\
  (forall n, n <> name nw -> getNetwork t' n = getNetwork t n) /\
  networks t' = networks t ++ [nw].
Proof.
  unfold addNetwork.
  destruct (str_in (name nw) (map name (networks t))) eqn:Hin; [discriminate|].
  intros [= <-]. apply str_in_not_In in Hin.
  unfold getNetwork. simpl. split; [|split; [|reflexivity]].
  - rewrite getNetwork_loop_snoc.
    destruct (getNetwork_loop_missing _ _ Hin) as [e ->].
    now rewrite String.eqb_refl.
  - intros n Hn. rewrite getNetwork_loop_snoc.
    destruct (getNetwork_loop (networks t) n); [reflexivity|].
    destruct (String.eqb (name nw) n) eqn:E; [|reflexivity].
    apply String.eqb_eq in E. congruence.
Qed.

Lemma addNetwork_getNetwork_witness :
  getNetwork two_hop "B" = Ok two_hop_B /\
  getNetwork two_hop "A" = getNetwork (mkTopology [two_hop_A]) "A".
Proof.
  destruct (addNetwork_getNetwork (mkTopology [two_hop_A]) two_hop two_hop_B eq_refl)
    as [Hnew [Hold _]].
  split; [exact Hnew|]. apply Hold. discriminate.
Defined.

(** *** [findPaths] before the search *)

Lemma getEndpoint_Network_getEndpoint (t : Topology) (nwn epn : string) (ep : Endpoint) :
  getEndpoint t nwn epn = Ok ep ->
  exists nw, getNetwork t nwn = Ok nw /\ Network_getEndpoint nw epn = Ok ep.
Proof.
  unfold getEndpoint, Network_getEndpoint.
  destruct (getNetwork t nwn) as [nw|e]; simpl; [|discriminate].
  intros H. exists nw. split; [reflexivity|]. eapply getEndpoint_loop_err, H.
Qed.

Lemma getEndpoint_raises (t : Topology) (nwn epn : string) (e : Exn) :
  getEndpoint t nwn epn = Raise e ->
  (exists msg, getNetwork t nwn = Raise (TopologyError msg)) \/
  (exists nw msg,
      getNetwork t nwn = Ok nw /\ Network_getEndpoint nw epn = Raise (TopologyError msg)).
Proof.
  unfold getEndpoint, Network_getEndpoint.
  destruct (getNetwork t nwn) as [nw|e0] eqn:Hnw; simpl.
  - intros H. right. exists nw.
    assert (Hn : ~ In epn (map endpoint (endpoints nw)))
      by (eapply getEndpoint_loop_raises; eauto).
    apply (getEndpoint_loop_raises _ (TopologyError ("No such endpoint (" +:+ epn +:+ ")")))
      in Hn.
    destruct Hn as [e' He']. pose proof (getEndpoint_loop_raises_err _ _ _ _ He') as ->.
    eauto.
  - intros _. left. apply getNetwork_loop_raises in Hnw. destruct Hnw as [-> _]. eauto.
Qed.

(** X4.  [findPaths] looks up both STPs before it searches: when the
    source or the destination names an unknown network or an unknown
    port, it raises [TopologyError], whatever the rest of the topology
    is. *)
Theorem findPaths_unknown_stp (t : Topology) (s d : STP) (bw : option Bandwidth) :
  (exists e, getEndpoint t (stp_network s) (stp_endpoint s) = Raise e) \/
  (exists e, getEndpoint t (stp_network d) (stp_endpoint d) = Raise e) ->
  exists msg, findPaths t s d bw = Some (Raise (TopologyError msg)).
Proof.
  intros H. unfold findPaths.
  destruct (getNetwork t (stp_network s)) as [snw|e] eqn:Hsnw.
  2:{ apply getNetwork_loop_raises in Hsnw. destruct Hsnw as [-> _]. eauto. }
  destruct (Network_getEndpoint snw (stp_endpoint s)) as [sep|e] eqn:Hsep.
  2:{ apply getEndpoint_loop_raises_err in Hsep. subst e. eauto. }
  destruct (getNetwork t (stp_network d)) as [dnw|e] eqn:Hdnw.
  2:{ apply getNetwork_loop_raises in Hdnw. destruct Hdnw as [-> _]. eauto. }
  destruct (Network_getEndpoint dnw (stp_endpoint d)) as [dep|e] eqn:Hdep.
  2:{ apply getEndpoint_loop_raises_err in Hdep. subst e. eauto. }
  exfalso. destruct H as [[e He] | [e He]]; apply getEndpoint_raises in He;
    destruct He as [[msg Hm] | [nw [msg [Hnw Hm]]]]; congruence.
Qed.

Lemma findPaths_unknown_stp_witness :
  exists msg,
    findPaths two_hop (mkSTP "A" "a1") (mkSTP "B" "b9") None
    = Some (Raise (TopologyError msg)).
Proof.
  apply (findPaths_unknown_stp two_hop (mkSTP "A" "a1") (mkSTP "B" "b9") None).
  right. eexists. reflexivity.
Defined.



(** *** The bandwidth filter *)

Lemma lacks_capacity_covers (bw : Bandwidth) (ep : Endpoint) :
  lacks_capacity (available_capacity ep) bw = false <-> covers bw ep.
Proof.
  unfold lacks_capacity, covers.
  destruct (available_capacity ep) as [c|], (minimum bw) as [m|]; split;
    try discriminate; try reflexivity; try (intros; discriminate).
  - intros H c' m' [= <-] [= <-]. apply Z.ltb_ge in H. exact H.
  - intros H. apply Z.ltb_ge. now apply H.
Qed.

Lemma hasBandwidth_covers (r : Route) (bw : Bandwidth) :
  hasBandwidth r bw = true <->
  forall l, In l r -> covers bw (stp1 l) /\ covers bw (stp2 l).
Proof.
  induction r as [|a r IH]; simpl.
  - split; [intros _ l [] | reflexivity].
  - destruct (lacks_capacity (available_capacity (stp1 a)) bw) eqn:H1.
    { split; [discriminate|]. intros H. destruct (H a (or_introl eq_refl)) as [Hc _].
      apply lacks_capacity_covers in Hc. congruence. }
    destruct (lacks_capacity (available_capacity (stp2 a)) bw) eqn:H2.
    { split; [discriminate|]. intros H. destruct (H a (or_introl eq_refl)) as [_ Hc].
      apply lacks_capacity_covers in Hc. congruence. }
    apply lacks_capacity_covers in H1, H2. rewrite IH. split.
    + intros H l [<- | Hl]; [tauto | now apply H].
    + intros H l Hl. apply H. now right.
Qed.

(** X6.  [filterBandwidth] keeps exactly the routes on which every port
    with a known capacity has at least the minimum bandwidth asked for,
    in their order; without a minimum it keeps every route. *)
Theorem filterBandwidth_keeps (routes : list Route) (bw : Bandwidth) :
  (forall r,
      In r (filterBandwidth routes bw) <->
      In r routes /\ forall l, In l r -> covers bw (stp1 l) /\ covers bw (stp2 l)) /\
  sublist (filterBandwidth routes bw) routes /\
  (minimum bw = None -> filterBandwidth routes bw = routes).
Proof.
  unfold filterBandwidth. split; [|split].
  - intros r. rewrite filter_In, hasBandwidth_covers. reflexivity.
  - induction routes as [|r routes IH]; simpl; [constructor|].
    destruct (hasBandwidth r bw); now constructor.
  - intros Hmin. induction routes as [|r routes IH]; simpl; [reflexivity|].
    assert (Hr : hasBandwidth r bw = true).
    { apply hasBandwidth_covers. intros l _. split; intros c m _ Hm; congruence. }
    now rewrite Hr, IH.
Qed.

(** *** The VLAN rule *)

Lemma vlan_raises (nm : string) (e : Exn) :
  vlan nm = Raise e -> e = IndexError "string index out of range" /\ nm = EmptyString.
Proof.
  unfold vlan.
  destruct (slice_last (List.filter isdigit (list_ascii_of_string nm))); simpl.
  - unfold last_char. destruct nm as [|c nm]; simpl.
    + intros [= <-]. tauto.
    + destruct (rev (list_ascii_of_string nm) ++ [c]) eqn:E; simpl; [|discriminate].
      now apply app_eq_nil in E.
  - discriminate.
Qed.

(** X7.  [canConnect] does not depend on the order of its two ports:
    the result, an exception included, is the same either way. *)
Theorem canConnect_symmetric (a b : Endpoint) : canConnect a b = canConnect b a.
Proof.
  unfold canConnect. rewrite (String.eqb_sym (network b) (network a)).
  destruct (String.eqb (network a) (network b)) eqn:E; cbn [negb]; [|reflexivity].
  apply String.eqb_eq in E. rewrite <- E.
  destruct (endswith (network a) ".ets"); cbn [negb]; [|reflexivity].
  destruct (str_in (network a) ["northernlight.ets"; "netherlight.ets"]);
    [reflexivity|].
  destruct (vlan (endpoint a)) as [va|ea] eqn:Ha, (vlan (endpoint b)) as [vb|eb] eqn:Hb;
    simpl; try reflexivity.
  - now rewrite Z.eqb_sym.
  - apply vlan_raises in Ha, Hb. destruct Ha as [-> _], Hb as [-> _]. reflexivity.
Qed.

Lemma ord_range (c : ascii) : 0 <= ord c <= 255.
Proof.
  unfold ord. pose proof (nat_ascii_bounded c). lia.
Qed.

Lemma slice_last_In {A} (l : list A) (x : A) : In x (slice_last l) -> In x l.
Proof.
  unfold slice_last. destruct (rev l) as [|y r] eqn:E; simpl; [tauto|].
  intros [<- | []]. apply in_rev. rewrite E. now left.
Qed.

(** X8.  The VLAN tag of a port name is never negative; it is at most 5
    when the name contains a digit, and at most 251 otherwise. *)
Theorem vlan_range (nm : string) (v : Z) :
  vlan nm = Ok v ->
  0 <= v <= 251 /\ (has_digit nm = true -> v <= 5).
Proof.
  unfold vlan, has_digit.
  destruct (slice_last (List.filter isdigit (list_ascii_of_string nm))) as [|d ds] eqn:E;
    simpl.
  - destruct (last_char nm) as [c|e]; simpl; [|discriminate].
    intros [= <-]. pose proof (ord_range c).
    split; [destruct (3 <? ord c) eqn:H3; [apply Z.ltb_lt in H3|]; lia|].
    intros Hd. exfalso. apply existsb_exists in Hd. destruct Hd as [x [Hx Hdx]].
    assert (Hin : In x (List.filter isdigit (list_ascii_of_string nm)))
      by (apply filter_In; tauto).
    unfold slice_last in E. apply in_rev in Hin.
    destruct (rev (List.filter isdigit (list_ascii_of_string nm))); [destruct Hin|discriminate].
  - intros [= <-].
    assert (Hd : isdigit d = true).
    { assert (Hin : In d (slice_last (List.filter isdigit (list_ascii_of_string nm))))
        by (rewrite E; now left).
      apply slice_last_In, filter_In in Hin. tauto. }
    unfold isdigit in Hd. apply andb_true_iff in Hd. destruct Hd as [H1 H2].
    apply Z.leb_le in H1, H2. unfold int_of_digit, ord.
    destruct (3 <? Z.of_nat (nat_of_ascii d) - 48) eqn:H3;
      [apply Z.ltb_lt in H3 | apply Z.ltb_ge in H3]; lia.
Qed.

Lemma vlan_range_witness :
  vlan "port9" = Ok 5 /\ has_digit "port9" = true /\ 0 <= 5 <= 5.
Proof.
  split; [reflexivity|]. split; [reflexivity|].
  destruct (vlan_range "port9" 5 eq_refl) as [[Hlo _] Hhi].
  split; [exact Hlo | exact (Hhi eq_refl)].
Defined.

Lemma mapM_all_true {A} (f : A -> Result bool) (xs : list A) :
  (forall x, In x xs -> f x = Ok true) ->
  mapM f xs = Ok (map (fun _ => true) xs).
Proof.
  induction xs as [|x xs IH]; intros H; simpl; [reflexivity|].
  rewrite (H x (or_introl eq_refl)). simpl. rewrite IH; [reflexivity|].
  intros y Hy. apply H. now right.
Qed.

Lemma filterM_all_true {A} (p : A -> Result bool) (xs : list A) :
  (forall x, In x xs -> p x = Ok true) -> filterM p xs = Ok xs.
Proof.
  induction xs as [|x xs IH]; intros H; simpl; [reflexivity|].
  rewrite (H x (or_introl eq_refl)). simpl. rewrite IH; [reflexivity|].
  intros y Hy. apply H. now right.
Qed.

(** X9.  [_pruneMismatchedPorts] drops nothing from routes whose links
    stay inside networks that are not VLAN networks (their name does not
    end in [.ets]) or that rewrite VLANs ([northernlight.ets],
    [netherlight.ets]), whatever the port names are. *)
Theorem prune_keeps_plain_networks (routes : list Route) :
  (forall r l,
      In r routes -> In l r ->
      network (stp1 l) = network (stp2 l) /\
      (endswith (network (stp1 l)) ".ets" = false \/
       In (network (stp1 l)) ["northernlight.ets"; "netherlight.ets"])) ->
  _pruneMismatchedPorts routes = Ok routes.
Proof.
  intros H. unfold _pruneMismatchedPorts. apply filterM_all_true.
  intros r Hr. unfold isValidRoute.
  rewrite (mapM_all_true _ r).
  - simpl. f_equal. clear. induction r as [|l r IH]; simpl; [reflexivity | exact IH].
  - intros l Hl. destruct (H r l Hr Hl) as [Hnet Hplain].
    unfold canConnect. apply String.eqb_eq in Hnet. rewrite Hnet. cbn [negb].
    destruct (endswith (network (stp1 l)) ".ets") eqn:Hets; cbn [negb]; [|reflexivity].
    destruct Hplain as [Hplain | Hplain]; [discriminate|].
    apply str_in_In in Hplain. now rewrite Hplain.
Qed.

Lemma prune_keeps_plain_networks_witness :
  _pruneMismatchedPorts
    [[mkLink (port "A" "a1") (link_to "A" "ax" "B" "bx");
      mkLink (link_to "B" "bx" "A" "ax") (port "B" "b2")]]
  = Ok [[mkLink (port "A" "a1") (link_to "A" "ax" "B" "bx");
         mkLink (link_to "B" "bx" "A" "ax") (port "B" "b2")]].
Proof.
  apply prune_keeps_plain_networks.
  intros r l [<- | []] [<- | [<- | []]]; split; try reflexivity; left; reflexivity.
Defined.

(** *** The search is exact *)

Lemma filterM_iff {A} (p : A -> Result bool) (xs ys : list A) :
  filterM p xs = Ok ys ->
  forall y, In y ys <-> In y xs /\ p y = Ok true.
Proof.
  revert ys. induction xs as [|x xs IH]; simpl; intros ys.
  - intros [= <-] y. simpl. tauto.
  - destruct (p x) as [b|e] eqn:Hx; simpl; [|discriminate].
    destruct (filterM p xs) as [zs|e]; simpl; [|discriminate].
    intros [= <-] y. specialize (IH zs eq_refl y).
    destruct b; simpl; rewrite IH; split.
    + intros [<- | H]; tauto.
    + intros [[<- | H] Hy]; tauto.
    + tauto.
    + intros [[<- | H] Hy]; [congruence | tauto].
Qed.

Section Exact.

Variable t : Topology.
Variable dst : STP.

Lemma findPathEndpoints_loop_complete
    (recurse : STP -> STP -> option (list string) -> option (Result (list Route)))
    (src : STP) (V : list string) :
  forall eps vis routes out,
    visited_or_init src vis = V ->
    findPathEndpoints_loop t recurse src dst eps vis routes = Some (Ok out) ->
    (forall r, In r routes -> In r out) /\
    (forall ep peer source_ep,
        In ep eps ->
        dest_stp ep = Some peer ->
        ~ In (stp_network peer) V ->
        getEndpoint t (stp_network src) (stp_endpoint src) = Ok source_ep ->
        (stp_network peer = stp_network dst ->
         forall lse lde,
           getEndpoint t (stp_network peer) (stp_endpoint peer) = Ok lse ->
           getEndpoint t (stp_network dst) (stp_endpoint dst) = Ok lde ->
           In [mkLink source_ep ep; mkLink lse lde] out) /\
        (stp_network peer <> stp_network dst ->
         exists subs,
           recurse peer dst (Some (V ++ [stp_network peer])) = Some (Ok subs) /\
           forall sr, In sr subs -> In (mkLink source_ep ep :: sr) out)).
Proof.
  induction eps as [|ep eps IH]; intros vis routes out HV; simpl.
  - intros [= <-]. split; [auto|]. intros ep peer source_ep [].
  - destruct (dest_stp ep) as [peer0|] eqn:Hpeer0.
    2:{ intros H. destruct (IH _ _ _ HV H) as [Hkeep Hnew]. split; [exact Hkeep|].
        intros ep1 peer source_ep [<- | Hin] Hp; [congruence|]. now apply Hnew. }
    rewrite HV.
    destruct (str_in (stp_network peer0) V) eqn:Hseen.
    { intros H. destruct (IH (Some V) _ _ eq_refl H) as [Hkeep Hnew].
      split; [exact Hkeep|].
      intros ep1 peer source_ep [<- | Hin] Hp Hfresh; [|now apply Hnew].
      apply str_in_In in Hseen. congruence. }
    destruct (getEndpoint t (stp_network src) (stp_endpoint src))
      as [source_ep0|e] eqn:Hsrc; [|discriminate].
    destruct (String.eqb (stp_network peer0) (stp_network dst)) eqn:Hdst.
    + apply String.eqb_eq in Hdst.
      destruct (getEndpoint t (stp_network peer0) (stp_endpoint peer0))
        as [lse0|e] eqn:Hlse; [|discriminate].
      destruct (getEndpoint t (stp_network dst) (stp_endpoint dst))
        as [lde0|e] eqn:Hlde; [|discriminate].
      intros H. destruct (IH (Some V) _ _ eq_refl H) as [Hkeep Hnew].
      split; [intros r Hr; apply Hkeep, in_or_app; now left|].
      intros ep1 peer source_ep [<- | Hin] Hp Hfresh Hs; [|now apply Hnew].
      assert (peer = peer0) by congruence. subst peer.
      injection Hs as <-. split; [|congruence].
      intros _ lse lde Hl1 Hl2. rewrite Hlse in Hl1. injection Hl1 as <-.
      injection Hl2 as <-.
      apply Hkeep, in_or_app. right. now left.
    + apply String.eqb_neq in Hdst.
      destruct (recurse peer0 dst (Some (V ++ [stp_network peer0])))
        as [[subs|e]|] eqn:Hsub; try discriminate.
      intros H. destruct (IH (Some V) _ _ eq_refl H) as [Hkeep Hnew].
      split; [intros r Hr; apply Hkeep, in_or_app; now left|].
      intros ep1 peer source_ep [<- | Hin] Hp Hfresh Hs; [|now apply Hnew].
      assert (peer = peer0) by congruence. subst peer.
      injection Hs as <-. split; [congruence|].
      intros _. exists subs. split; [exact Hsub|].
      intros sr Hsr. apply Hkeep, in_or_app. right.
      apply in_map_iff. now exists sr.
Qed.

Lemma findPathEndpoints_complete (src : STP) (V : list string) (r : Route) :
  simple_route t dst src V r ->
  forall fuel vis out,
    visited_or_init src vis = V ->
    findPathEndpoints fuel t src dst vis = Some (Ok out) ->
    In r out.
Proof.
  induction 1 as [src V snw ep peer source_ep lse lde Hsnw Hep Hpeer Hfresh Hsrc Hdst Hlse Hlde
                 |src V snw ep peer source_ep sr Hsnw Hep Hpeer Hfresh Hsrc Hdst Hsr IH];
    intros fuel vis out HV; (destruct fuel as [|fuel]; [discriminate|]); simpl;
    rewrite Hsnw; intros Hrun;
    destruct (findPathEndpoints_loop_complete _ src V _ _ _ _ HV Hrun) as [_ Hnew];
    destruct (Hnew ep peer source_ep Hep Hpeer Hfresh Hsrc) as [Hlast Hstep].
  - now apply Hlast.
  - destruct (Hstep Hdst) as [subs [Hsubs Hin]].
    apply Hin. eapply IH; [|exact Hsubs]. reflexivity.
Qed.

Lemma findPathEndpoints_exact (fuel : nat) (src : STP) (vis : option (list string))
    (out : list Route) :
  findPathEndpoints fuel t src dst vis = Some (Ok out) ->
  forall r, In r out <-> simple_route t dst src (visited_or_init src vis) r.
Proof.
  intros Hrun r. split.
  - revert r. apply List.Forall_forall.
    apply (findPathEndpoints_routes t dst (simple_route t dst)) with (fuel := fuel);
      [| |exact Hrun].
    + intros. eapply simple_last; eassumption.
    + intros. eapply simple_step; eassumption.
  - intros Hr. eapply findPathEndpoints_complete; [exact Hr|reflexivity|exact Hrun].
Qed.

End Exact.

Lemma findPaths_search (t : Topology) (s d : STP) (bw : option Bandwidth)
    (paths : list Path) :
  stp_network s <> stp_network d ->
  findPaths t s d bw = Some (Ok paths) ->
  exists routes pruned,
    findPathEndpoints (findPaths_fuel t) t s d None = Some (Ok routes) /\
    _pruneMismatchedPorts
      match bw with
      | Some b => filterBandwidth routes b
      | None => routes
      end = Ok pruned /\
    paths = map mkPath pruned.
Proof.
  intros Hneq. unfold findPaths.
  destruct (getNetwork t (stp_network s)) as [snw|e] eqn:Hsnw; [|discriminate].
  destruct (Network_getEndpoint snw (stp_endpoint s)) as [sep|e]; [|discriminate].
  destruct (getNetwork t (stp_network d)) as [dnw|e] eqn:Hdnw; [|discriminate].
  destruct (Network_getEndpoint dnw (stp_endpoint d)) as [dep|e]; [|discriminate].
  destruct (getNetwork_Ok _ _ _ Hsnw) as [_ ->].
  destruct (getNetwork_Ok _ _ _ Hdnw) as [_ ->].
  apply String.eqb_neq in Hneq. rewrite Hneq.
  destruct (findPathEndpoints (findPaths_fuel t) t s d None) as [[routes|e]|];
    try discriminate.
  destruct (_pruneMismatchedPorts _) as [pruned|e] eqn:Hpr; simpl; [|discriminate].
  intros [= <-]. now exists routes, pruned.
Qed.

(** X10.  Between two different networks [findPaths] returns exactly
    the simple routes from the source port to the destination port
    (leaving each network through a paired port, entering no network
    twice, ending at the first arrival in the destination network) that
    pass the bandwidth filter, when a bandwidth is given, and the VLAN
    rule: each of them is returned and nothing else is. *)
Theorem findPaths_exact (t : Topology) (s d : STP) (bw : option Bandwidth)
    (paths : list Path) :
  stp_network s <> stp_network d ->
  findPaths t s d bw = Some (Ok paths) ->
  forall p,
    In p paths <->
    simple_route t d s [stp_network s] (links p) /\
    (forall b, bw = Some b ->
               forall l, In l (links p) -> covers b (stp1 l) /\ covers b (stp2 l)) /\
    isValidRoute (links p) = Ok true.
Proof.
  intros Hneq Hfind p.
  destruct (findPaths_search _ _ _ _ _ Hneq Hfind) as [routes [pruned [Hrun [Hpr ->]]]].
  assert (Hp : In p (map mkPath pruned) <-> In (links p) pruned).
  { rewrite in_map_iff. split.
    - intros [r [<- Hr]]. exact Hr.
    - intros Hr. exists (links p). split; [now destruct p | exact Hr]. }
  rewrite Hp. unfold _pruneMismatchedPorts in Hpr.
  rewrite (filterM_iff _ _ _ Hpr).
  pose proof (findPathEndpoints_exact t d _ s None routes Hrun (links p)) as Hex.
  simpl in Hex. rewrite <- Hex.
  destruct bw as [b|].
  - unfold filterBandwidth. rewrite filter_In, hasBandwidth_covers. split.
    + intros [[Hin Hcov] Hval]. split; [exact Hin|]. split; [|exact Hval].
      intros b' [= <-]. exact Hcov.
    + intros [Hin [Hcov Hval]].
      split; [split; [exact Hin | exact (Hcov b eq_refl)] | exact Hval].
  - split.
    + intros [Hin Hval]. split; [exact Hin|]. split; [discriminate | exact Hval].
    + tauto.
Qed.

Lemma findPaths_exact_witness :
  exists p q,
    findPaths triangle (mkSTP "A" "a1") (mkSTP "C" "c1") None = Some (Ok [p; q]) /\
    simple_route triangle (mkSTP "C" "c1") (mkSTP "A" "a1") ["A"] (links p) /\
    simple_route triangle (mkSTP "C" "c1") (mkSTP "A" "a1") ["A"] (links q).
Proof.
  do 2 eexists. split; [vm_compute; reflexivity|].
  pose proof (findPaths_exact triangle (mkSTP "A" "a1") (mkSTP "C" "c1") None _
                ltac:(discriminate) eq_refl) as H.
  split; apply H; [left | right; left]; reflexivity.
Defined.

(** *** The length of a path *)

Lemma simple_route_length (t : Topology) (dst src : STP) (V : list string) (r : Route) :
  simple_route t dst src V r -> (2 <= length r)%nat.
Proof. induction 1; simpl; lia. Qed.

Lemma link_in_names (t : Topology) (r : Route) (nws : list Network) :
  Forall2 (link_in t) r nws ->
  length r = length (map name nws) /\
  incl (map name nws) (map name (networks t)).
Proof.
  induction 1 as [|l nw r nws [Hnw _] _ [IHlen IHincl]]; simpl.
  - split; [reflexivity | intros x []].
  - split; [now rewrite IHlen|].
    apply getNetwork_Ok in Hnw. destruct Hnw as [Hnw _].
    intros x [<- | Hx]; [now apply in_map | now apply IHincl].
Qed.

(** X11.  A path returned by [findPaths] has one link when source and
    destination are in the same network and at least two otherwise, and
    never more links than the topology has networks. *)
Theorem findPaths_hops (t : Topology) (s d : STP) (bw : option Bandwidth)
    (paths : list Path) (p : Path) :
  findPaths t s d bw = Some (Ok paths) ->
  In p paths ->
  (hops p <= length (networks t))%nat /\
  (stp_network s = stp_network d -> hops p = 1%nat) /\
  (stp_network s <> stp_network d -> (2 <= hops p)%nat).
Proof.
  intros Hfind Hp. unfold hops.
  destruct (findPaths_inv _ _ _ _ _ Hfind)
    as [sep [dep [Hs [Hd [[Heq Hone] | [Hneq [routes [Hroutes Hsub]]]]]]]].
  - rewrite (Hone p Hp). simpl. split; [|split; [reflexivity | congruence]].
    destruct (getEndpoint_Ok _ _ _ _ Hs) as [snw [Hsnw _]].
    apply getNetwork_Ok in Hsnw. destruct Hsnw as [Hin _].
    destruct (networks t); [destruct Hin | simpl; lia].
  - split; [|split; [congruence|]].
    + apply findPathEndpoints_fresh in Hroutes.
      rewrite List.Forall_forall in Hroutes.
      destruct (Hroutes _ (Hsub p Hp))
        as [l [rest [nw [nws [-> [Hl [Hname [Hrest [Hnd Hfresh]]]]]]]]].
      assert (Hall : Forall2 (link_in t) (l :: rest) (nw :: nws)) by now constructor.
      destruct (link_in_names _ _ _ Hall) as [Hlen Hincl].
      rewrite Hlen, <- (length_map name (networks t)).
      apply NoDup_incl_length; [|exact Hincl].
      simpl. constructor; [|exact Hnd].
      rewrite Hname. intros Hin. apply (Hfresh _ Hin). now left.
    + intros _. specialize (Hsub p Hp).
      apply (findPathEndpoints_exact t d _ s None routes Hroutes) in Hsub.
      eapply simple_route_length, Hsub.
Qed.

Lemma findPaths_hops_witness :
  exists p q,
    findPaths triangle (mkSTP "A" "a1") (mkSTP "C" "c1") None = Some (Ok [p; q]) /\
    (hops p <= 3)%nat /\ (2 <= hops q)%nat.
Proof.
  do 2 eexists. split; [vm_compute; reflexivity|].
  split.
  - apply (findPaths_hops triangle (mkSTP "A" "a1") (mkSTP "C" "c1") None _ _ eq_refl).
    now left.
  - apply (findPaths_hops triangle (mkSTP "A" "a1") (mkSTP "C" "c1") None _ _ eq_refl);
      [right; now left | discriminate].
Defined.

(** *** The exceptions of [findPaths] *)

Lemma getEndpoint_raises_TopologyError (t : Topology) (nwn epn : string) (e : Exn) :
  getEndpoint t nwn epn = Raise e -> exists msg, e = TopologyError msg.
Proof.
  unfold getEndpoint. destruct (getNetwork t nwn) as [nw|e0] eqn:Hnw; simpl.
  - intros H. apply getEndpoint_loop_raises_err in H. eauto.
  - intros [= <-]. apply getNetwork_loop_raises in Hnw. destruct Hnw as [-> _]. eauto.
Qed.

Lemma findPathEndpoints_loop_raises (t : Topology) (dst : STP)
    (recurse : STP -> STP -> option (list string) -> option (Result (list Route)))
    (src : STP) :
  (forall peer nvn e,
      recurse peer dst (Some nvn) = Some (Raise e) -> exists msg, e = TopologyError msg) ->
  forall eps vis routes e,
    findPathEndpoints_loop t recurse src dst eps vis routes = Some (Raise e) ->
    exists msg, e = TopologyError msg.
Proof.
  intros Hrec. induction eps as [|ep eps IH]; intros vis routes e; simpl; [discriminate|].
  destruct (dest_stp ep) as [peer|]; [|apply IH].
  destruct (str_in (stp_network peer) (visited_or_init src vis)); [apply IH|].
  destruct (getEndpoint t (stp_network src) (stp_endpoint src)) as [source_ep|e0] eqn:Hsrc.
  2:{ intros [= <-]. eapply getEndpoint_raises_TopologyError, Hsrc. }
  destruct (String.eqb (stp_network peer) (stp_network dst)).
  - destruct (getEndpoint t (stp_network peer) (stp_endpoint peer)) as [lse|e0] eqn:Hlse.
    2:{ intros [= <-]. eapply getEndpoint_raises_TopologyError, Hlse. }
    destruct (getEndpoint t (stp_network dst) (stp_endpoint dst)) as [lde|e0] eqn:Hlde.
    2:{ intros [= <-]. eapply getEndpoint_raises_TopologyError, Hlde. }
    apply IH.
  - destruct (recurse peer dst _) as [[subs|e0]|] eqn:Hsub; [apply IH| |discriminate].
    intros [= <-]. eapply Hrec, Hsub.
Qed.

Lemma findPathEndpoints_raises (t : Topology) (dst : STP) (fuel : nat) :
  forall src vis e,
    findPathEndpoints fuel t src dst vis = Some (Raise e) ->
    exists msg, e = TopologyError msg.
Proof.
  induction fuel as [|fuel IH]; intros src vis e; simpl; [discriminate|].
  destruct (getNetwork t (stp_network src)) as [snw|e0] eqn:Hsnw.
  - apply findPathEndpoints_loop_raises. intros peer nvn e1. apply IH.
  - intros [= <-]. apply getNetwork_loop_raises in Hsnw. destruct Hsnw as [-> _]. eauto.
Qed.

Lemma named_ports_endpoint (t : Topology) (nw : Network) (ep : Endpoint) :
  named_ports t = true -> In nw (networks t) -> In ep (endpoints nw) ->
  endpoint ep <> EmptyString.
Proof.
  unfold named_ports. rewrite forallb_forall. intros H Hnw Hep.
  specialize (H nw Hnw). rewrite forallb_forall in H. specialize (H ep Hep).
  apply negb_true_iff, String.eqb_neq in H. exact H.
Qed.

Lemma canConnect_returns (t : Topology) (l : Link) (nw : Network) :
  well_formed t = true -> named_ports t = true -> link_in t l nw ->
  exists b, canConnect (stp1 l) (stp2 l) = Ok b.
Proof.
  intros Hwf Hnamed [Hnw [H1 H2]].
  apply getNetwork_Ok in Hnw. destruct Hnw as [Hnw _].
  unfold canConnect.
  rewrite (well_formed_network _ _ _ Hwf Hnw H1), (well_formed_network _ _ _ Hwf Hnw H2).
  rewrite String.eqb_refl. cbn [negb].
  destruct (endswith (name nw) ".ets"); cbn [negb]; [|eauto].
  destruct (str_in (name nw) ["northernlight.ets"; "netherlight.ets"]); [eauto|].
  destruct (vlan (endpoint (stp1 l))) as [v1|e1] eqn:E1.
  2:{ apply vlan_raises in E1. destruct E1 as [_ E1].
      exfalso. exact (named_ports_endpoint t nw (stp1 l) Hnamed Hnw H1 E1). }
  destruct (vlan (endpoint (stp2 l))) as [v2|e2] eqn:E2.
  2:{ apply vlan_raises in E2. destruct E2 as [_ E2].
      exfalso. exact (named_ports_endpoint t nw (stp2 l) Hnamed Hnw H2 E2). }
  simpl. eauto.
Qed.

Lemma prune_returns (t : Topology) (routes : list Route) :
  well_formed t = true -> named_ports t = true ->
  (forall r, In r routes -> exists nws, Forall2 (link_in t) r nws) ->
  exists pruned, _pruneMismatchedPorts routes = Ok pruned.
Proof.
  intros Hwf Hnamed. unfold _pruneMismatchedPorts.
  induction routes as [|r routes IH]; intros H; simpl; [eauto|].
  assert (Hr : exists b, isValidRoute r = Ok b).
  { destruct (H r (or_introl eq_refl)) as [nws Hnws]. unfold isValidRoute.
    assert (Hm : exists bs, mapM (fun link => canConnect (stp1 link) (stp2 link)) r = Ok bs).
    { clear H IH. induction Hnws as [|l nw r' nws' Hl _ IHr]; simpl; [eauto|].
      destruct (canConnect_returns _ _ _ Hwf Hnamed Hl) as [b Hb]. rewrite Hb.
      destruct IHr as [bs Hbs]. rewrite Hbs. simpl. eauto. }
    destruct Hm as [bs ->]. simpl. eauto. }
  destruct Hr as [b ->]. simpl.
  destruct IH as [pruned ->]; [intros r' Hr'; apply H; now right|].
  simpl. eauto.
Qed.

(** X12.  In a topology whose ports carry the name of their network and
    have non-empty names, the only exception [findPaths] raises is
    [TopologyError]: the VLAN rule neither fails its assertion nor reads
    past the end of a port name. *)
Theorem findPaths_raises_TopologyError (t : Topology) (s d : STP)
    (bw : option Bandwidth) (e : Exn) :
  well_formed t = true ->
  named_ports t = true ->
  findPaths t s d bw = Some (Raise e) ->
  exists msg, e = TopologyError msg.
Proof.
  intros Hwf Hnamed. unfold findPaths.
  destruct (getNetwork t (stp_network s)) as [snw|e0] eqn:Hsnw.
  2:{ intros [= <-]. apply getNetwork_loop_raises in Hsnw. destruct Hsnw as [-> _]. eauto. }
  destruct (Network_getEndpoint snw (stp_endpoint s)) as [sep|e0] eqn:Hsep.
  2:{ intros [= <-]. apply getEndpoint_loop_raises_err in Hsep. subst. eauto. }
  destruct (getNetwork t (stp_network d)) as [dnw|e0] eqn:Hdnw.
  2:{ intros [= <-]. apply getNetwork_loop_raises in Hdnw. destruct Hdnw as [-> _]. eauto. }
  destruct (Network_getEndpoint dnw (stp_endpoint d)) as [dep|e0] eqn:Hdep.
  2:{ intros [= <-]. apply getEndpoint_loop_raises_err in Hdep. subst. eauto. }
  assert (Hfiltered : forall routes : list Route,
             (forall r, In r routes -> exists nws, Forall2 (link_in t) r nws) ->
             forall r,
               In r match bw with
                    | Some b => filterBandwidth routes b
                    | None => routes
                    end ->
               exists nws, Forall2 (link_in t) r nws).
  { intros routes H r Hr. apply H. destruct bw as [b|]; [|exact Hr].
    unfold filterBandwidth in Hr. apply filter_In in Hr. tauto. }
  destruct (String.eqb (name snw) (name dnw)) eqn:Heq.
  - apply String.eqb_eq in Heq.
    destruct (getNetwork_Ok _ _ _ Hsnw) as [_ Hsn].
    destruct (getNetwork_Ok _ _ _ Hdnw) as [_ Hdn].
    assert (dnw = snw) by (rewrite <- Hdn, <- Heq, Hsn in Hdnw; congruence). subst dnw.
    destruct (prune_returns t
                match bw with
                | Some b => filterBandwidth [[mkLink sep dep]] b
                | None => [[mkLink sep dep]]
                end Hwf Hnamed) as [pruned Hpr].
    { apply Hfiltered. intros r [<- | []]. exists [snw]. constructor; [|constructor].
      rewrite <- Hsn in Hsnw.
      apply getEndpoint_loop_Ok in Hsep, Hdep. repeat split; tauto. }
    rewrite Hpr. discriminate.
  - destruct (findPathEndpoints (findPaths_fuel t) t s d None) as [[routes|e0]|] eqn:Hrun;
      [| |discriminate].
    + destruct (prune_returns t
                  match bw with
                  | Some b => filterBandwidth routes b
                  | None => routes
                  end Hwf Hnamed) as [pruned Hpr].
      { apply Hfiltered. intros r Hr.
        apply findPathEndpoints_fresh in Hrun. rewrite List.Forall_forall in Hrun.
        destruct (Hrun r Hr) as [l [rest [nw [nws [-> [Hl [_ [Hrest _]]]]]]]].
        exists (nw :: nws). now constructor. }
      rewrite Hpr. discriminate.
    + intros [= <-]. eapply findPathEndpoints_raises, Hrun.
Qed.

Lemma findPaths_raises_TopologyError_witness :
  exists msg,
    findPaths two_hop (mkSTP "Z" "z1") (mkSTP "B" "b2") None
    = Some (Raise (TopologyError "No network named Z")) /\
    TopologyError "No network named Z" = TopologyError msg.
Proof.
  destruct (findPaths_raises_TopologyError two_hop (mkSTP "Z" "z1") (mkSTP "B" "b2") None
              (TopologyError "No network named Z") eq_refl eq_refl eq_refl) as [msg Hmsg].
  exists msg. split; [reflexivity | exact Hmsg].
Defined.

Lemma findPathEndpoints_unknown_source (t : Topology) (dst : STP) (fuel : nat) (src : STP)
    (vis : option (list string)) (out : list Route) :
  ~ In (stp_network src) (map name (networks t)) ->
  findPathEndpoints fuel t src dst vis <> Some (Ok out).
Proof.
  intros Hn. destruct fuel as [|fuel]; simpl; [discriminate|].
  destruct (getNetwork_loop_missing _ _ Hn) as [e He].
  unfold getNetwork. rewrite He. discriminate.
Qed.

(** X13.  One dangling pairing is enough to make [findPaths] fail: when
    source and destination resolve and lie in different networks, and a
    port of the source network is paired with a network the topology
    does not have, [findPaths] raises [TopologyError], also when other
    ports lead to the destination. *)
Theorem findPaths_dangling_pairing (t : Topology) (s d : STP) (bw : option Bandwidth)
    (sep dep : Endpoint) (snw : Network) (ep : Endpoint) (peer : STP) :
  getEndpoint t (stp_network s) (stp_endpoint s) = Ok sep ->
  getEndpoint t (stp_network d) (stp_endpoint d) = Ok dep ->
  stp_network s <> stp_network d ->
  getNetwork t (stp_network s) = Ok snw ->
  In ep (endpoints snw) ->
  dest_stp ep = Some peer ->
  ~ In (stp_network peer) (map name (networks t)) ->
  exists msg, findPaths t s d bw = Some (Raise (TopologyError msg)).
Proof.
  intros Hs Hd Hneq Hsnw Hep Hpeer Hdangling.
  assert (Hsin : In (stp_network s) (map name (networks t))).
  { apply getNetwork_Ok in Hsnw. destruct Hsnw as [Hin <-]. now apply in_map. }
  assert (Hdin : In (stp_network d) (map name (networks t))).
  { destruct (getEndpoint_Ok _ _ _ _ Hd) as [dnw [Hdnw _]].
    apply getNetwork_Ok in Hdnw. destruct Hdnw as [Hin <-]. now apply in_map. }
  assert (Hrun : exists msg,
             findPathEndpoints (findPaths_fuel t) t s d None
             = Some (Raise (TopologyError msg))).
  { pose proof (findPathEndpoints_fuel t d (findPaths_fuel t) s None) as Hfuel.
    destruct (findPathEndpoints (findPaths_fuel t) t s d None) as [[out|e]|] eqn:Hrun.
    - exfalso. unfold findPaths_fuel in Hrun.
      remember (S (length (networks t))) as fuel eqn:Efuel. clear Efuel Hfuel.
      simpl in Hrun. rewrite Hsnw in Hrun.
      destruct (findPathEndpoints_loop_complete t d _ s [stp_network s] _ None _ _
                  eq_refl Hrun) as [_ Hnew].
      destruct (Hnew ep peer sep Hep Hpeer) as [_ Hstep]; [|exact Hs|].
      { intros [Heq | []]. apply Hdangling. now rewrite <- Heq. }
      destruct Hstep as [subs [Hsubs _]].
      { intros Heq. apply Hdangling. now rewrite Heq. }
      eapply findPathEndpoints_unknown_source; [exact Hdangling | exact Hsubs].
    - destruct (findPathEndpoints_raises _ _ _ _ _ _ Hrun) as [msg ->]. eauto.
    - exfalso. apply Hfuel; [|reflexivity].
      unfold findPaths_fuel. pose proof (unvisited_le t (visited_or_init s None)). lia. }
  destruct Hrun as [msg Hrun]. exists msg. unfold findPaths.
  destruct (getEndpoint_Network_getEndpoint _ _ _ _ Hs) as [snw' [Hsnw' Hsep]].
  destruct (getEndpoint_Network_getEndpoint _ _ _ _ Hd) as [dnw [Hdnw Hdep]].
  rewrite Hsnw', Hsep, Hdnw, Hdep.
  destruct (getNetwork_Ok _ _ _ Hsnw') as [_ ->].
  destruct (getNetwork_Ok _ _ _ Hdnw) as [_ ->].
  apply String.eqb_neq in Hneq. rewrite Hneq, Hrun. reflexivity.
Qed.

Lemma findPaths_dangling_pairing_witness :
  exists msg,
    findPaths dangling (mkSTP "A" "a1") (mkSTP "B" "b2") None
    = Some (Raise (TopologyError msg)).
Proof.
  apply (findPaths_dangling_pairing dangling (mkSTP "A" "a1") (mkSTP "B" "b2") None
           (port "A" "a1") (port "B" "b2")
           (mkNetwork "A" [port "A" "a1"; link_to "A" "ax" "B" "bx";
                           link_to "A" "ay" "Y" "ya"])
           (link_to "A" "ay" "Y" "ya") (mkSTP "Y" "ya")
           eq_refl eq_refl ltac:(discriminate) eq_refl
           ltac:(right; right; left; reflexivity) eq_refl).
  simpl. intros [H | [H | []]]; discriminate.
Defined.

End TopologyExtras.

(** ** Further properties of the aggregator *)

Module AggregatorExtras.

Import Topology Aggregator Spec AggregatorFacts.

Lemma State_eqb_eq (a b : State) : State_eqb a b = true <-> a = b.
Proof. destruct a, b; simpl; split; intros H; try discriminate; reflexivity. Qed.

Lemma State_eqb_neq (a b : State) : State_eqb a b = false <-> a <> b.
Proof.
  rewrite <- State_eqb_eq. destruct (State_eqb a b); split; congruence.
Qed.

(** *** Loading a connection *)

(** X14.  [getConnection] changes nothing; the connection it returns has
    the id asked for and is the first such record of the store, and it
    raises [ConnectionNonExistentError] exactly when the store has no
    record with that id. *)
Theorem getConnection_lookup (requester_nsa cid : string) (w : World) :
  snd (getConnection requester_nsa cid w) = w /\
  (forall conn,
      fst (getConnection requester_nsa cid w) = Ok conn <->
      exists pre post,
        service_connections (store w) = pre ++ conn :: post /\
        connection_id conn = cid /\
        forall c, In c pre -> connection_id c <> cid) /\
  (forall e,
      fst (getConnection requester_nsa cid w) = Raise e <->
      e = ConnectionNonExistentError ("No connection with id " +:+ cid) /\
      forall c, In c (service_connections (store w)) -> connection_id c <> cid).
Proof.
  unfold getConnection, bindM, ServiceConnection_findBy.
  induction (service_connections (store w)) as [|a l IH]; simpl.
  - split; [reflexivity|]. split.
    + intros conn. split; [discriminate|].
      intros [pre [post [H _]]]. now destruct pre.
    + intros e. split; [intros [= <-]; tauto | intros [-> _]; reflexivity].
  - destruct (String.eqb (connection_id a) cid) eqn:E; simpl.
    + apply String.eqb_eq in E. split; [reflexivity|]. split.
      * intros conn. split.
        -- intros [= <-]. exists [], l. simpl. tauto.
        -- intros [pre [post [H [Hid Hpre]]]]. destruct pre as [|c pre]; simpl in H.
           ++ now injection H as ->.
           ++ injection H as <- _. exfalso. apply (Hpre a); [now left | exact E].
      * intros e. split; [discriminate|].
        intros [_ H]. exfalso. apply (H a); [now left | exact E].
    + apply String.eqb_neq in E. destruct IH as [IH0 [IH1 IH2]].
      split; [destruct (List.filter _ l); reflexivity|]. split.
      * intros conn. rewrite IH1. split.
        -- intros [pre [post [-> [Hid Hpre]]]]. exists (a :: pre), post.
           simpl. repeat split; [exact Hid|]. intros c [<- | Hc]; auto.
        -- intros [pre [post [H [Hid Hpre]]]]. destruct pre as [|c pre]; simpl in H.
           ++ injection H as -> _. congruence.
           ++ injection H as <- ->. exists pre, post. repeat split; [exact Hid|].
              intros c' Hc'. apply Hpre. now right.
      * intros e. rewrite IH2. split.
        -- intros [-> H]. split; [reflexivity|]. intros c [<- | Hc]; auto.
        -- intros [-> H]. split; [reflexivity|]. intros c Hc. apply H. now right.
Qed.

(** *** The fan-out *)

Lemma forM_call_handler
    (handler : Event -> Locality -> string -> string -> string -> Store
               -> Outcome string * Store)
    (self : Self) (ev : Event) (legs : list Subconnection) :
  forall w,
    exists results st,
      forM legs (fun sc =>
        let cs := if String.eqb (sub_provider_nsa sc) (self_nsa self)
                  then NSI2_LOCAL else NSI2_REMOTE in
        call_handler handler ev cs (self_nsa self) (sub_provider_nsa sc)
          (sub_connection_id sc)) w
      = (Ok results, mkWorld st (dispatched w ++ fan_out self ev legs) (random w)) /\
      length results = length legs.
Proof.
  induction legs as [|sc legs IH]; intros w.
  - exists [], (store w). simpl. unfold ret. rewrite app_nil_r. now destruct w.
  - cbn [forM]. unfold bindM at 1. unfold call_handler at 1.
    destruct (handler ev _ (self_nsa self) (sub_provider_nsa sc) (sub_connection_id sc)
                (store w)) as [r st1].
    destruct (IH (mkWorld st1 (dispatched w ++ fan_out self ev [sc]) (random w)))
      as [results [st [Hrun Hlen]]].
    simpl in Hrun. unfold bindM. rewrite Hrun. simpl.
    exists (r :: results), st. rewrite <- app_assoc. simpl. now rewrite Hlen.
Qed.

(** X15.  [forAllSubConnections] calls the handler of the event once for
    every leg of the connection, in the order of the legs as they were
    in the store when it started, as a local call for a leg of this NSA
    and a remote call otherwise; it never raises, whatever the handlers
    answer, and returns one result per leg. *)
Theorem forAllSubConnections_fan_out
    (handler : Event -> Locality -> string -> string -> string -> Store
               -> Outcome string * Store)
    (self : Self) (conn : ServiceConnection) (ev : Event) (w : World) :
  exists results st,
    forAllSubConnections handler self conn ev w
    = (Ok results,
       mkWorld st (dispatched w ++ fan_out self ev (legs_of conn (store w))) (random w)) /\
    length results = length (legs_of conn (store w)).
Proof.
  unfold forAllSubConnections, bindM, subconnections_get.
  apply forM_call_handler.
Qed.

(** *** [terminate] and [reserveCommit] *)

Lemma getConnection_run (requester_nsa cid : string) (w : World) (conn : ServiceConnection) :
  fst (getConnection requester_nsa cid w) = Ok conn ->
  getConnection requester_nsa cid w = (Ok conn, w).
Proof.
  unfold getConnection, bindM, ServiceConnection_findBy.
  destruct (List.filter _ _); simpl; [discriminate|]. now intros [= ->].
Qed.

Section Guarded.

Variable state_fn : Transition -> StateArg -> Store -> Result unit * Store.
Variable handler :
  Event -> Locality -> string -> string -> string -> Store -> Outcome string * Store.
Variable self : Self.

Lemma terminate_alive (requester_nsa provider_nsa : string) (attr : option string)
    (cid : string) (w : World) (conn : ServiceConnection) :
  fst (getConnection requester_nsa cid w) = Ok conn ->
  lifecycle_state conn <> TERMINATED ->
  terminate state_fn handler self requester_nsa provider_nsa attr cid w
  = guarded_fan_out state_fn handler self terminating terminated TERMINATE
      (AttributeError "Aggregator instance has no attribute 'connection_id'") conn cid w.
Proof.
  intros Hget Halive. apply getConnection_run in Hget. apply State_eqb_neq in Halive.
  unfold terminate, guarded_fan_out. unfold bindM at 1. rewrite Hget, Halive.
  unfold bindM at 1. unfold state_call at 1.
  destruct (state_fn terminating (OnConnection conn) (store w)) as [[u|e] st1];
    [|reflexivity].
  unfold bindM at 1.
  destruct (forAllSubConnections handler self conn TERMINATE _) as [[results|e] w2];
    [|reflexivity].
  destruct (all (map success results)); [|reflexivity].
  unfold bindM, state_call.
  destruct (state_fn terminated (OnConnection conn) (store w2)) as [[u'|e] st3];
    reflexivity.
Qed.

Lemma reserveCommit_alive (requester_nsa provider_nsa : string) (attr : option string)
    (cid : string) (w : World) (conn : ServiceConnection) :
  fst (getConnection requester_nsa cid w) = Ok conn ->
  lifecycle_state conn <> TERMINATED ->
  Aggregator_reserveCommit state_fn handler self requester_nsa provider_nsa attr cid w
  = guarded_fan_out state_fn handler self reserveCommit reserved RESERVE_COMMIT
      (NotImplementedError "Cannot handle failure in reserve commit yet") conn cid w.
Proof.
  intros Hget Halive. apply getConnection_run in Hget. apply State_eqb_neq in Halive.
  unfold Aggregator_reserveCommit, guarded_fan_out. unfold bindM at 1.
  rewrite Hget, Halive.
  unfold bindM at 1. unfold state_call at 1.
  destruct (state_fn reserveCommit (OnConnection conn) (store w)) as [[u|e] st1];
    [|reflexivity].
  unfold bindM at 1.
  destruct (forAllSubConnections handler self conn RESERVE_COMMIT _) as [[results|e] w2];
    [|reflexivity].
  destruct (all (map success results)); [|reflexivity].
  unfold bindM, state_call.
  destruct (state_fn reserved (OnConnection conn) (store w2)) as [[u'|e] st3];
    reflexivity.
Qed.

Lemma guarded_fan_out_dispatched (enter leave : Transition) (ev : Event) (partial : Exn)
    (conn : ServiceConnection) (cid : string) (w : World) :
  match state_fn enter (OnConnection conn) (store w) with
  | (Raise e, st1) =>
      guarded_fan_out state_fn handler self enter leave ev partial conn cid w
      = (Raise e, mkWorld st1 (dispatched w) (random w))
  | (Ok _, st1) =>
      dispatched (snd (guarded_fan_out state_fn handler self enter leave ev partial conn cid w))
      = dispatched w ++ fan_out self ev (legs_of conn st1)
  end.
Proof.
  unfold guarded_fan_out.
  destruct (state_fn enter (OnConnection conn) (store w)) as [[u|e] st1]; [|reflexivity].
  destruct (forM_call_handler handler self ev (legs_of conn st1)
              (mkWorld st1 (dispatched w) (random w))) as [results [st [Hrun _]]].
  unfold forAllSubConnections, bindM, subconnections_get. cbn [store].
  unfold legs_of in Hrun. rewrite Hrun.
  destruct (all (map success results)); [|reflexivity].
  destruct (state_fn leave (OnConnection conn) _) as [[u'|e] st3]; reflexivity.
Qed.

Lemma guarded_fan_out_success (enter leave : Transition) (ev : Event) (partial : Exn)
    (conn : ServiceConnection) (cid c : string) (w : World) :
  fst (guarded_fan_out state_fn handler self enter leave ev partial conn cid w) = Ok c ->
  c = cid /\
  exists st1 results w2 st3,
    state_fn enter (OnConnection conn) (store w) = (Ok tt, st1) /\
    forAllSubConnections handler self conn ev (mkWorld st1 (dispatched w) (random w))
    = (Ok results, w2) /\
    Forall (fun r => success r = true) results /\
    state_fn leave (OnConnection conn) (store w2) = (Ok tt, st3) /\
    snd (guarded_fan_out state_fn handler self enter leave ev partial conn cid w)
    = mkWorld st3 (dispatched w2) (random w2).
Proof.
  unfold guarded_fan_out.
  destruct (state_fn enter (OnConnection conn) (store w)) as [[[]|e] st1]; [|discriminate].
  destruct (forAllSubConnections handler self conn ev _) as [[results|e] w2] eqn:Hfan;
    [|discriminate].
  destruct (all (map success results)) eqn:Hall; [|discriminate].
  destruct (state_fn leave (OnConnection conn) (store w2)) as [[[]|e] st3] eqn:Hleave;
    [|discriminate].
  simpl. intros [= <-]. split; [reflexivity|].
  exists st1, results, w2, st3.
  split; [reflexivity|]. split; [exact Hfan|]. split; [|split; [exact Hleave|reflexivity]].
  unfold all in Hall. rewrite forallb_forall in Hall.
  apply List.Forall_forall. intros r Hr. apply Hall. now apply in_map.
Qed.

End Guarded.

(** X16.  [terminate] on a connection that is not yet terminated: when
    the state machine refuses [terminating], the exception is passed on
    and no handler is called; when it accepts, the handler of TERMINATE
    is called once for every leg recorded after the transition, in
    order, whatever the legs answer, and no other handler is called. *)
Theorem terminate_fan_out
    (state_fn : Transition -> StateArg -> Store -> Result unit * Store)
    (handler : Event -> Locality -> string -> string -> string -> Store
               -> Outcome string * Store)
    (self : Self) (requester_nsa provider_nsa : string) (attr : option string)
    (cid : string) (w : World) (conn : ServiceConnection) :
  fst (getConnection requester_nsa cid w) = Ok conn ->
  lifecycle_state conn <> TERMINATED ->
  match state_fn terminating (OnConnection conn) (store w) with
  | (Raise e, st1) =>
      terminate state_fn handler self requester_nsa provider_nsa attr cid w
      = (Raise e, mkWorld st1 (dispatched w) (random w))
  | (Ok _, st1) =>
      dispatched (snd (terminate state_fn handler self requester_nsa provider_nsa
                         attr cid w))
      = dispatched w ++ fan_out self TERMINATE (legs_of conn st1)
  end.
Proof.
  intros Hget Halive.
  rewrite (terminate_alive state_fn handler self _ provider_nsa attr _ _ _ Hget Halive).
  apply guarded_fan_out_dispatched.
Qed.

Lemma terminate_fan_out_witness :
  terminate refusing_state_fn example_handler aggregator_A
    "urn:requester" "urn:nsa:A" None "0123456789ab" world_partial_failure
  = (Raise (OtherError "StateTransitionError" "transition not allowed"),
     world_partial_failure) /\
  dispatched (snd (terminate example_state_fn failing_handler aggregator_A
                     "urn:requester" "urn:nsa:A" None "0123456789ab"
                     world_partial_failure))
  = [mkDispatch TERMINATE NSI2_LOCAL "urn:nsa:A" "urn:nsa:A" "leg-A"].
Proof.
  split.
  - apply (terminate_fan_out refusing_state_fn example_handler aggregator_A
             "urn:requester" "urn:nsa:A" None "0123456789ab" world_partial_failure
             parent eq_refl ltac:(discriminate)).
  - apply (terminate_fan_out example_state_fn failing_handler aggregator_A
             "urn:requester" "urn:nsa:A" None "0123456789ab" world_partial_failure
             parent eq_refl ltac:(discriminate)).
Defined.

(** X17.  [terminate] returns a connection id only when the connection
    was already [TERMINATED], or when the state machine accepted
    [terminating], every leg answered its TERMINATE with success, and
    the state machine accepted [terminated]; the id returned is the one
    asked for. *)
Theorem terminate_success
    (state_fn : Transition -> StateArg -> Store -> Result unit * Store)
    (handler : Event -> Locality -> string -> string -> string -> Store
               -> Outcome string * Store)
    (self : Self) (requester_nsa provider_nsa : string) (attr : option string)
    (cid c : string) (w : World) :
  fst (terminate state_fn handler self requester_nsa provider_nsa attr cid w) = Ok c ->
  c = cid /\
  exists conn,
    fst (getConnection requester_nsa cid w) = Ok conn /\
    (lifecycle_state conn = TERMINATED \/
     exists st1 results w2 st3,
       state_fn terminating (OnConnection conn) (store w) = (Ok tt, st1) /\
       forAllSubConnections handler self conn TERMINATE
         (mkWorld st1 (dispatched w) (random w)) = (Ok results, w2) /\
       Forall (fun r => success r = true) results /\
       state_fn terminated (OnConnection conn) (store w2) = (Ok tt, st3)).
Proof.
  intros Hok.
  destruct (getConnection requester_nsa cid w) as [[conn|e] w0] eqn:Hget.
  2:{ unfold terminate, bindM in Hok. rewrite Hget in Hok. discriminate. }
  assert (Hfst : fst (getConnection requester_nsa cid w) = Ok conn) by now rewrite Hget.
  destruct (State_eqb (lifecycle_state conn) TERMINATED) eqn:Hstate.
  - apply getConnection_run in Hfst.
    unfold terminate, bindM in Hok. rewrite Hfst, Hstate in Hok. simpl in Hok.
    injection Hok as <-. split; [reflexivity|]. exists conn.
    apply State_eqb_eq in Hstate. auto.
  - apply State_eqb_neq in Hstate.
    rewrite (terminate_alive state_fn handler self _ provider_nsa attr _ _ _ Hfst Hstate)
      in Hok.
    apply guarded_fan_out_success in Hok.
    destruct Hok as [-> [st1 [results [w2 [st3 [H1 [H2 [H3 [H4 _]]]]]]]]].
    split; [reflexivity|]. exists conn. split; [reflexivity|]. right.
    now exists st1, results, w2, st3.
Qed.

Lemma terminate_success_witness :
  exists conn,
    fst (getConnection "urn:requester" "0123456789ab" world_partial_failure) = Ok conn /\
    (lifecycle_state conn = TERMINATED \/
     exists st1 results w2 st3,
       example_state_fn terminating (OnConnection conn) (store world_partial_failure)
       = (Ok tt, st1) /\
       forAllSubConnections example_handler aggregator_A conn TERMINATE
         (mkWorld st1 (dispatched world_partial_failure) (random world_partial_failure))
       = (Ok results, w2) /\
       Forall (fun r => success r = true) results /\
       example_state_fn terminated (OnConnection conn) (store w2) = (Ok tt, st3)).
Proof.
  apply (terminate_success example_state_fn example_handler aggregator_A
           "urn:requester" "urn:nsa:A" None "0123456789ab" "0123456789ab"
           world_partial_failure eq_refl).
Defined.

(** X18.  [reserveCommit] on a loaded connection: if it is [TERMINATED]
    the call raises [ConnectionGoneError] (with the [%s] of its message
    left unformatted) and changes nothing; otherwise, if the state
    machine refuses the transition [reserveCommit], the exception is
    passed on and no handler is called, and if it accepts, the handler
    of RESERVE_COMMIT is called once for every leg; the connection id is
    returned only when every leg answered with success and the state
    machine accepted [reserved]. *)
Theorem reserveCommit_outcomes
    (state_fn : Transition -> StateArg -> Store -> Result unit * Store)
    (handler : Event -> Locality -> string -> string -> string -> Store
               -> Outcome string * Store)
    (self : Self) (requester_nsa provider_nsa : string) (attr : option string)
    (cid : string) (w : World) (conn : ServiceConnection) :
  fst (getConnection requester_nsa cid w) = Ok conn ->
  let run := Aggregator_reserveCommit state_fn handler self requester_nsa provider_nsa
               attr cid w in
  (lifecycle_state conn = TERMINATED ->
   run = (Raise (ConnectionGoneError "Connection %s has been terminated"), w)) /\
  (lifecycle_state conn <> TERMINATED ->
   match state_fn reserveCommit (OnConnection conn) (store w) with
   | (Raise e, st1) => run = (Raise e, mkWorld st1 (dispatched w) (random w))
   | (Ok _, st1) =>
       dispatched (snd run)
       = dispatched w ++ fan_out self RESERVE_COMMIT (legs_of conn st1)
   end) /\
  (forall c,
      fst run = Ok c ->
      c = cid /\
      exists st1 results w2 st3,
        state_fn reserveCommit (OnConnection conn) (store w) = (Ok tt, st1) /\
        forAllSubConnections handler self conn RESERVE_COMMIT
          (mkWorld st1 (dispatched w) (random w)) = (Ok results, w2) /\
        Forall (fun r => success r = true) results /\
        state_fn reserved (OnConnection conn) (store w2) = (Ok tt, st3)).
Proof.
  intros Hget run. subst run.
  assert (Hgone : lifecycle_state conn = TERMINATED ->
                  Aggregator_reserveCommit state_fn handler self requester_nsa
                    provider_nsa attr cid w
                  = (Raise (ConnectionGoneError "Connection %s has been terminated"), w)).
  { intros Hstate. unfold Aggregator_reserveCommit, bindM.
    rewrite (getConnection_run _ _ _ _ Hget), Hstate. reflexivity. }
  split; [exact Hgone|]. split.
  - intros Halive.
    rewrite (reserveCommit_alive state_fn handler self _ provider_nsa attr _ _ _
               Hget Halive).
    apply guarded_fan_out_dispatched.
  - intros c Hok.
    destruct (State_eqb (lifecycle_state conn) TERMINATED) eqn:Hstate.
    + apply State_eqb_eq in Hstate. rewrite (Hgone Hstate) in Hok. discriminate.
    + apply State_eqb_neq in Hstate.
      rewrite (reserveCommit_alive state_fn handler self _ provider_nsa attr _ _ _
                 Hget Hstate) in Hok.
      apply guarded_fan_out_success in Hok.
      destruct Hok as [-> [st1 [results [w2 [st3 [H1 [H2 [H3 [H4 _]]]]]]]]].
      split; [reflexivity|]. now exists st1, results, w2, st3.
Qed.

Lemma reserveCommit_outcomes_witness :
  Aggregator_reserveCommit example_state_fn example_handler aggregator_A
    "urn:requester" "urn:nsa:A" None "0123456789ab" world_terminated
  = (Raise (ConnectionGoneError "Connection %s has been terminated"), world_terminated) /\
  dispatched (snd (Aggregator_reserveCommit example_state_fn failing_handler aggregator_A
                     "urn:requester" "urn:nsa:A" None "0123456789ab"
                     world_partial_failure))
  = [mkDispatch RESERVE_COMMIT NSI2_LOCAL "urn:nsa:A" "urn:nsa:A" "leg-A"].
Proof.
  split.
  - apply (reserveCommit_outcomes example_state_fn example_handler aggregator_A
             "urn:requester" "urn:nsa:A" None "0123456789ab" world_terminated
             terminated_parent eq_refl). reflexivity.
  - apply (reserveCommit_outcomes example_state_fn failing_handler aggregator_A
             "urn:requester" "urn:nsa:A" None "0123456789ab" world_partial_failure
             parent eq_refl). discriminate.
Defined.

(** X19.  For a connection id the store does not hold, [terminate] and
    [reserveCommit] raise [ConnectionNonExistentError] and leave the
    world as it was: the state machine is not consulted and no handler
    is called. *)
Theorem unknown_connection
    (state_fn : Transition -> StateArg -> Store -> Result unit * Store)
    (handler : Event -> Locality -> string -> string -> string -> Store
               -> Outcome string * Store)
    (self : Self) (requester_nsa provider_nsa : string) (attr : option string)
    (cid : string) (w : World) :
  (forall c, In c (service_connections (store w)) -> connection_id c <> cid) ->
  terminate state_fn handler self requester_nsa provider_nsa attr cid w
  = (Raise (ConnectionNonExistentError ("No connection with id " +:+ cid)), w) /\
  Aggregator_reserveCommit state_fn handler self requester_nsa provider_nsa attr cid w
  = (Raise (ConnectionNonExistentError ("No connection with id " +:+ cid)), w).
Proof.
  intros Hnone.
  assert (Hget : getConnection requester_nsa cid w
                 = (Raise (ConnectionNonExistentError ("No connection with id " +:+ cid)),
                    w)).
  { unfold getConnection, bindM, ServiceConnection_findBy.
    assert (Hf : List.filter (fun c => String.eqb (connection_id c) cid)
                   (service_connections (store w)) = []).
    { induction (service_connections (store w)) as [|a l IH]; simpl; [reflexivity|].
      destruct (String.eqb (connection_id a) cid) eqn:E.
      - apply String.eqb_eq in E. exfalso. apply (Hnone a); [now left | exact E].
      - apply IH. intros c Hc. apply Hnone. now right. }
    now rewrite Hf. }
  unfold terminate, Aggregator_reserveCommit, bindM. now rewrite Hget.
Qed.

Lemma unknown_connection_witness :
  terminate example_state_fn example_handler aggregator_A
    "urn:requester" "urn:nsa:A" None "ffffffffffff" world_terminated
  = (Raise (ConnectionNonExistentError "No connection with id ffffffffffff"),
     world_terminated).
Proof.
  apply (unknown_connection example_state_fn example_handler aggregator_A
           "urn:requester" "urn:nsa:A" None "ffffffffffff" world_terminated).
  intros c [<- | []]. discriminate.
Defined.

(** *** [reserve] *)

(** [reserve] never accepts a connection id supplied by the
    caller: it raises [ConnectionExistsError] when a record with the id
    exists and [NotImplementedError] when none does, and changes
    nothing. *)
Theorem reserve_supplied_id (cid : string) (w : World) :
  reserve_connection_id (Some cid) w
  = (Raise (if existsb (fun c => String.eqb (connection_id c) cid)
                       (service_connections (store w))
            then ConnectionExistsError ("Connection with id " +:+ cid +:+ " already exists")
            else NotImplementedError
                   "Cannot handly modification of existing connections yet"), w) /\
  (existsb (fun c => String.eqb (connection_id c) cid) (service_connections (store w))
   = true <->
   exists c, In c (service_connections (store w)) /\ connection_id c = cid).
Proof.
  split.
  - unfold reserve_connection_id, bindM, ServiceConnection_exists.
    destruct (existsb _ _); reflexivity.
  - rewrite existsb_exists. split; intros [c [Hc Hid]]; exists c; split; try exact Hc.
    + now apply String.eqb_eq.
    + now apply String.eqb_eq.
Qed.

(** X21.  [reserve] returns its reply only when every leg of the fan-out
    succeeded and the state machine accepted [reserveHeld] for the
    parent; the reply is the one prepared, and no compensation was
    run. *)
Theorem reserve_complete_success
    (state_fn : Transition -> StateArg -> Store -> Result unit * Store)
    (Subconnection_terminate : Subconnection -> Store -> Outcome unit * Store)
    (ServiceParameters : Type) (conn : ServiceConnection)
    (reply r : string * option string * option string * ServiceParameters)
    (results : list (Outcome Subconnection)) (w : World) :
  fst (reserve_complete state_fn Subconnection_terminate ServiceParameters
         conn reply results w) = Ok r ->
  r = reply /\
  Forall (fun leg => success leg = true) results /\
  exists st,
    state_fn reserveHeld (OnConnection conn) (store w) = (Ok tt, st) /\
    snd (reserve_complete state_fn Subconnection_terminate ServiceParameters
           conn reply results w)
    = mkWorld st (dispatched w) (random w).
Proof.
  unfold reserve_complete.
  destruct (all (map success results)) eqn:Hall.
  - unfold bindM, state_call.
    destruct (state_fn reserveHeld (OnConnection conn) (store w)) as [[[]|e] st] eqn:Hheld;
      [|discriminate].
    simpl. intros [= <-]. split; [reflexivity|]. split.
    + unfold all in Hall. rewrite forallb_forall in Hall.
      apply List.Forall_forall. intros leg Hleg. apply Hall. now apply in_map.
    + exists st. split; reflexivity.
  - intros Hok. exfalso. revert Hok.
    destruct (forM_on_store Subconnection_terminate (successes_of results) w)
      as [defs [st Hrun]].
    unfold bindM. rewrite Hrun. unfold unawaited.
    destruct (state_call state_fn terminatedFailed _ _) as [r0 w']. discriminate.
Qed.

Lemma reserve_complete_success_witness :
  Forall (fun leg => success leg = true) [Succeeded leg_A] /\
  exists st,
    example_state_fn reserveHeld (OnConnection parent) (store world_partial_failure)
    = (Ok tt, st) /\
    snd (reserve_complete example_state_fn example_terminate unit parent
           ("0123456789ab", None, None, tt) [Succeeded leg_A] world_partial_failure)
    = mkWorld st (dispatched world_partial_failure) (random world_partial_failure).
Proof.
  apply (reserve_complete_success example_state_fn example_terminate unit parent
           ("0123456789ab", None, None, tt) ("0123456789ab", None, None, tt)
           [Succeeded leg_A] world_partial_failure eq_refl).
Defined.

(** *** The aggregate error *)

(** X22.  [_createAggregateException] never builds an error of the class
    it is given as [default_error]: it returns the internal error for a
    fan-out without failure, the failure of the leg for a fan-out of one
    failed leg, and in every other case ends in the [NameError] of
    [_buildErrorMessage]. *)
Theorem aggregate_exception_cases {A : Type} (results : list (Outcome A))
    (action : string) (default_error : string -> Exn) :
  let r := _createAggregateException module_globals results action default_error in
  (failures_of results = [] ->
   r = Ok (InternalServerError "_createAggregateFailure called with no failures")) /\
  (forall f, results = [Failed f] -> r = Ok f) /\
  (failures_of results <> [] -> length results <> 1%nat ->
   r = Raise (NameError "global name 'self' is not defined")) /\
  (forall e, r = Ok e ->
             e = InternalServerError "_createAggregateFailure called with no failures" \/
             results = [Failed e]).
Proof.
  cbn zeta.
  assert (H3 : failures_of results <> [] -> length results <> 1%nat ->
               _createAggregateException module_globals results action default_error
               = Raise (NameError "global name 'self' is not defined")).
  { intros Hf Hl. unfold _createAggregateException.
    destruct (failures_of results) as [|f fs]; [congruence|]. simpl.
    apply Nat.eqb_neq in Hl. rewrite Hl. reflexivity. }
  split; [|split; [|split; [exact H3|]]].
  - intros Hf. unfold _createAggregateException. now rewrite Hf.
  - intros f ->. reflexivity.
  - intros e He.
    destruct (failures_of results) as [|f fs] eqn:Hf.
    + left. unfold _createAggregateException in He. rewrite Hf in He. simpl in He.
      congruence.
    + destruct (Nat.eq_dec (length results) 1%nat) as [Hl | Hl].
      * right. destruct results as [|[a|f0] [|x xs]]; try discriminate.
        unfold _createAggregateException in He. simpl in He. congruence.
      * rewrite H3 in He; [discriminate | congruence | exact Hl].
Qed.

(** *** The fan-out of [reserve] *)

Section ReserveFanOut.

Variable reserve_handler :
  Locality -> string -> string -> option string -> option string -> LegParameters ->
  Store -> Outcome ReserveReply * Store.
Variable managing_nsa : Network -> string.
Variable nsa_equal : string -> string -> bool.
Variable self : Self.
Variable conn : ServiceConnection.

Lemma reserve_legs_run (nw : Network) :
  getNetwork (self_topology self) (self_network self) = Ok nw ->
  forall links idx w,
  exists results w',
    reserve_legs reserve_handler managing_nsa nsa_equal self conn idx links w
    = (Ok results, w') /\
    length results = length links /\
    dispatched w' = dispatched w /\
    random w' = random w /\
    (forall i sc, nth_error results i = Some (Succeeded sc) -> leg_record managing_nsa nsa_equal self conn nw (idx + i) sc) /\
    ((forall cs a b g d ssp st,
         subconnections (snd (reserve_handler cs a b g d ssp st)) = subconnections st) ->
     subconnections (store w') = subconnections (store w) ++ successes_of results).
Proof.
  intros Hnw links. induction links as [|link rest IH]; intros idx w.
  - exists [], w. simpl. unfold ret.
    split; [reflexivity|]. split; [reflexivity|]. split; [reflexivity|].
    split; [reflexivity|]. split.
    + intros [|i] sc H; discriminate.
    + intros _. now rewrite app_nil_r.
  - cbn [reserve_legs]. unfold bindM at 1. unfold lift. rewrite Hnw.
    unfold bindM at 1. unfold on_store at 1.
    set (ssp := mkLegParameters _ _ _ _ _).
    set (cs := if String.eqb _ _ then _ else _).
    destruct (reserve_handler cs (self_nsa self) (managing_nsa nw)
                (global_reservation_id conn) (description conn) ssp (store w))
      as [d st1] eqn:Hd.
    assert (Hpres1 :
      (forall cs a b g d ssp st,
          subconnections (snd (reserve_handler cs a b g d ssp st)) = subconnections st) ->
      subconnections st1 = subconnections (store w)).
    { intros Hp. specialize (Hp cs (self_nsa self) (managing_nsa nw)
        (global_reservation_id conn) (description conn) ssp (store w)).
      now rewrite Hd in Hp. }
    destruct d as [[[[grid desc] cid] sp]|f].
    + unfold reserveDone, Subconnection_save, on_store, ret, bindM.
      cbn beta iota delta [store dispatched random fst snd].
      match goal with
      | |- context [reserve_legs _ _ _ _ _ _ _ ?w1] =>
          destruct (IH (S idx) w1) as (results & w' & Hrun & Hlen & Hdis & Hrnd & Hrec & Hst)
      end.
      rewrite Hrun.
      eexists _, w'. split; [reflexivity|].
      split; [simpl; now rewrite Hlen|].
      split; [exact Hdis|]. split; [exact Hrnd|]. split.
      * intros [|i] sc H.
        -- injection H as <-. rewrite Nat.add_0_r.
           unfold leg_record. cbn. repeat split; try reflexivity.
           now destruct (nsa_equal _ _).
        -- replace (idx + S i)%nat with (S idx + i)%nat by lia. now apply Hrec.
      * intros Hp. rewrite (Hst Hp). cbn [store subconnections successes_of].
        rewrite (Hpres1 Hp). now rewrite <- app_assoc.
    + unfold bindM, ret. cbn beta iota.
      match goal with
      | |- context [reserve_legs _ _ _ _ _ _ _ ?w1] =>
          destruct (IH (S idx) w1) as (results & w' & Hrun & Hlen & Hdis & Hrnd & Hrec & Hst)
      end.
      rewrite Hrun.
      eexists _, w'. split; [reflexivity|].
      split; [simpl; now rewrite Hlen|].
      split; [exact Hdis|]. split; [exact Hrnd|]. split.
      * intros [|i] sc H; [discriminate|].
        replace (idx + S i)%nat with (S idx + i)%nat by lia. now apply Hrec.
      * intros Hp. rewrite (Hst Hp). cbn [store subconnections successes_of].
        now rewrite (Hpres1 Hp).
Qed.

Lemma successes_of_nth {A} (results : list (Outcome A)) (a : A) :
  In a (successes_of results) -> exists i, nth_error results i = Some (Succeeded a).
Proof.
  induction results as [|[b|f] results IH]; simpl; [tauto| |].
  - intros [->|H]; [now exists 0%nat|]. destruct (IH H) as [i Hi]. now exists (S i).
  - intros H. destruct (IH H) as [i Hi]. now exists (S i).
Qed.

(** X20.  When the fan-out of [reserve] returns, it returns one outcome
    per link of the selected path, and the record of every leg that
    succeeded has [order_id] equal to the position of its link on the
    path, the id of the parent, revision 0, the states RESERVE_HELD,
    SCHEDULED, INACTIVE and INITIAL, and as provider the managing NSA
    of the aggregator's own network, whichever network the link is
    in. *)
Theorem reserve_fan_out_records (selected_path : list PathLink) (w w' : World)
    (results : list (Outcome Subconnection)) :
  reserve_fan_out reserve_handler managing_nsa nsa_equal self conn selected_path w
  = (Ok results, w') ->
  length results = length selected_path /\
  forall i sc,
    nth_error results i = Some (Succeeded sc) ->
    exists link nw,
      nth_error selected_path i = Some link /\
      getNetwork (self_topology self) (self_network self) = Ok nw /\
      leg_record managing_nsa nsa_equal self conn nw i sc.
Proof.
  unfold reserve_fan_out. intros Hrun.
  destruct (getNetwork (self_topology self) (self_network self)) as [nw|e] eqn:Hnw.
  - destruct (reserve_legs_run nw Hnw selected_path 0 w)
      as (results0 & w0 & Hrun0 & Hlen & _ & _ & Hrec & _).
    rewrite Hrun0 in Hrun. injection Hrun as <- <-.
    split; [exact Hlen|].
    intros i sc Hi.
    assert (Hlt : (i < length selected_path)%nat).
    { rewrite <- Hlen. apply nth_error_Some. now rewrite Hi. }
    destruct (nth_error selected_path i) as [link|] eqn:Hlink.
    + exists link, nw. split; [reflexivity|]. split; [reflexivity|].
      exact (Hrec i sc Hi).
    + apply nth_error_None in Hlink. lia.
  - destruct selected_path as [|link rest].
    + simpl in Hrun. unfold ret in Hrun. injection Hrun as <- <-.
      split; [reflexivity|].
      intros [|i] sc H; discriminate.
    + cbn [reserve_legs] in Hrun. unfold bindM at 1, lift in Hrun.
      rewrite Hnw in Hrun. discriminate.
Qed.

(** X28.  The fan-out of [reserve] raises only when the selected path
    has a link and the aggregator's own network is not in its topology:
    the exception is the [TopologyError] of [getNetwork], no handler was
    asked and nothing was stored. *)
Theorem reserve_fan_out_raises (selected_path : list PathLink) (w w' : World) (e : Exn) :
  reserve_fan_out reserve_handler managing_nsa nsa_equal self conn selected_path w
  = (Raise e, w') ->
  selected_path <> [] /\
  w' = w /\
  e = TopologyError ("No network named " +:+ self_network self) /\
  ~ In (self_network self) (map name (networks (self_topology self))).
Proof.
  unfold reserve_fan_out. intros Hrun.
  destruct (getNetwork (self_topology self) (self_network self)) as [nw|e0] eqn:Hnw.
  - destruct (reserve_legs_run nw Hnw selected_path 0 w) as (results0 & w0 & Hrun0 & _).
    rewrite Hrun0 in Hrun. discriminate.
  - destruct selected_path as [|link rest].
    + simpl in Hrun. discriminate.
    + cbn [reserve_legs] in Hrun. unfold bindM at 1, lift in Hrun.
      rewrite Hnw in Hrun. injection Hrun as <- <-.
      split; [discriminate|]. split; [reflexivity|].
      exact (TopologyExtras.getNetwork_loop_raises _ _ _ Hnw).
Qed.

(** X29.  When the RESERVE handlers leave the table of legs alone, the
    fan-out of [reserve] adds to it exactly the records of the legs that
    succeeded, and all of them are legs of the parent. *)
Theorem reserve_fan_out_saved (selected_path : list PathLink) (w w' : World)
    (results : list (Outcome Subconnection)) :
  (forall cs a b g d ssp st,
      subconnections (snd (reserve_handler cs a b g d ssp st)) = subconnections st) ->
  reserve_fan_out reserve_handler managing_nsa nsa_equal self conn selected_path w
  = (Ok results, w') ->
  Permutation (subconnections (store w'))
              (subconnections (store w) ++ successes_of results) /\
  Permutation (legs_of conn (store w'))
              (legs_of conn (store w) ++ successes_of results).
Proof.
  unfold reserve_fan_out. intros Hp Hrun.
  assert (Hst : subconnections (store w')
                = subconnections (store w) ++ successes_of results /\
                forall sc, In sc (successes_of results) ->
                           sub_service_connection_id sc = id conn).
  { destruct (getNetwork (self_topology self) (self_network self)) as [nw|e] eqn:Hnw.
    - destruct (reserve_legs_run nw Hnw selected_path 0 w)
        as (results0 & w0 & Hrun0 & _ & _ & _ & Hrec & Hst).
      rewrite Hrun0 in Hrun. injection Hrun as <- <-.
      split; [exact (Hst Hp)|].
      intros sc Hsc. destruct (successes_of_nth _ _ Hsc) as [i Hi].
      destruct (Hrec i sc Hi) as (_ & Hid & _). exact Hid.
    - destruct selected_path as [|link rest].
      + simpl in Hrun. unfold ret in Hrun. injection Hrun as <- <-.
        simpl. rewrite app_nil_r. split; [reflexivity|]. intros sc [].
      + cbn [reserve_legs] in Hrun. unfold bindM at 1, lift in Hrun.
        rewrite Hnw in Hrun. discriminate. }
  destruct Hst as [Hst Hid]. split.
  - rewrite Hst. apply Permutation_refl.
  - unfold legs_of. rewrite Hst, List.filter_app.
    replace (List.filter (fun sc => Nat.eqb (sub_service_connection_id sc) (id conn))
               (successes_of results)) with (successes_of results);
      [apply Permutation_refl|].
    symmetry. apply List.forallb_filter_id. apply List.forallb_forall.
    intros sc Hsc. apply Nat.eqb_eq. now apply Hid.
Qed.


End ReserveFanOut.

Lemma reserve_fan_out_records_witness :
  reserve_fan_out local_only_reserve_handler example_managing_nsa String.eqb
    aggregator_A parent two_hop_path world_reserving
  = (Ok partial_failure, world_partial_failure) /\
  length partial_failure = length two_hop_path /\
  forall i sc,
    nth_error partial_failure i = Some (Succeeded sc) ->
    exists link nw,
      nth_error two_hop_path i = Some link /\
      getNetwork two_hop "A" = Ok nw /\
      leg_record example_managing_nsa String.eqb aggregator_A parent nw i sc.
Proof.
  split; [reflexivity|].
  apply (reserve_fan_out_records local_only_reserve_handler example_managing_nsa
           String.eqb aggregator_A parent two_hop_path world_reserving
           world_partial_failure partial_failure).
  reflexivity.
Defined.

Lemma reserve_fan_out_raises_witness :
  reserve_fan_out example_reserve_handler example_managing_nsa String.eqb
    aggregator_Z parent two_hop_path world_reserving
  = (Raise (TopologyError "No network named Z"), world_reserving) /\
  two_hop_path <> [] /\
  world_reserving = world_reserving /\
  TopologyError "No network named Z" = TopologyError ("No network named " +:+ "Z") /\
  ~ In "Z" (map name (networks two_hop)).
Proof.
  split; [reflexivity|].
  apply (reserve_fan_out_raises example_reserve_handler example_managing_nsa
           String.eqb aggregator_Z parent two_hop_path world_reserving world_reserving
           (TopologyError "No network named Z")).
  reflexivity.
Defined.

Lemma reserve_fan_out_saved_witness :
  reserve_fan_out example_reserve_handler example_managing_nsa String.eqb
    aggregator_A parent two_hop_path world_reserving
  = (Ok [Succeeded leg_A; Succeeded leg_B], world_reserved) /\
  Permutation (subconnections (store world_reserved))
              (subconnections (store world_reserving)
               ++ successes_of [Succeeded leg_A; Succeeded leg_B]) /\
  Permutation (legs_of parent (store world_reserved))
              (legs_of parent (store world_reserving)
               ++ successes_of [Succeeded leg_A; Succeeded leg_B]).
Proof.
  split; [reflexivity|].
  apply (reserve_fan_out_saved example_reserve_handler example_managing_nsa
           String.eqb aggregator_A parent two_hop_path world_reserving world_reserved
           [Succeeded leg_A; Succeeded leg_B]).
  - intros cs a b g d ssp st. reflexivity.
  - reflexivity.
Defined.



End AggregatorExtras.

(** ** Further properties of the NSI2 provider *)

Module ProviderExtras.

Import Provider Spec ProviderFacts.

Section Messages.

Variable ServiceParameters : Type.
Variable provider_client : ClientCall ServiceParameters -> Result Deferred.
Variable service_provider : ServiceCall ServiceParameters -> Result (Outcome string).

Lemma store_header_lookup (self : State ServiceParameters) (h : Header)
    (key : string * string) :
  truthy (reply_to h) = true ->
  notifications _ (store_header _ self h key) !! key = Some h.
Proof.
  intros Ht. unfold store_header. rewrite Ht. cbn [notifications].
  apply lookup_insert_eq.
Qed.

Lemma store_then_deliver (self : State ServiceParameters) (h : Header)
    (c : Confirmation ServiceParameters) :
  truthy (reply_to h) = true ->
  snd (deliver _ provider_client (store_header _ self h (notification_key _ c)) c)
  = mkState _ (delete (notification_key _ c) (notifications _ self))
      (client_calls _ self ++ [client_call_of _ c h]).
Proof.
  intros Ht. rewrite deliver_confirm.
  rewrite (confirm_stored _ _ _ _ _ h (store_header_lookup _ _ _ Ht)).
  unfold store_header. rewrite Ht. cbn [notifications client_calls].
  now rewrite delete_insert_eq.
Qed.

(** X23.  A request that carries a reply address, followed by its
    confirmation, makes exactly one call on the provider client, built
    from the header of the request (not from the header that comes with
    the confirmation), and leaves no header behind; this holds for
    [reserveCommit], [provision] and [terminate], and for [reserve] with
    the connection id the service provider assigned. *)
Theorem request_confirm_round_trip (self : State ServiceParameters) (h h' : Header)
    (cid : string) :
  truthy (reply_to h) = true ->
  let answered (self1 : State ServiceParameters) (c : Confirmation ServiceParameters) :=
    snd (deliver _ provider_client self1 c)
    = mkState _ (delete (notification_key _ c) (notifications _ self))
        (client_calls _ self ++ [client_call_of _ c h]) in
  answered (snd (reserveCommit_request _ service_provider self h cid))
           (ReserveCommitConfirmed _ h' cid) /\
  answered (snd (provision_request _ service_provider self h cid))
           (ProvisionConfirmed _ h' cid) /\
  answered (snd (terminate_request _ service_provider self h cid))
           (TerminateConfirmed _ h' cid) /\
  (forall ocid g d sp assigned g' d' sp',
      service_provider (service_reserve _ h ocid g d sp) = Ok (Succeeded assigned) ->
      answered (snd (reserve _ service_provider self h ocid g d sp))
               (ReserveConfirmed _ h' assigned g' d' sp')).
Proof.
  intros Ht answered. subst answered. cbn beta.
  split; [|split; [|split]].
  - apply (store_then_deliver self h (ReserveCommitConfirmed _ h' cid) Ht).
  - apply (store_then_deliver self h (ProvisionConfirmed _ h' cid) Ht).
  - apply (store_then_deliver self h (TerminateConfirmed _ h' cid) Ht).
  - intros ocid g d sp assigned g' d' sp' Hsp. unfold reserve. rewrite Hsp.
    apply (store_then_deliver self h (ReserveConfirmed _ h' assigned g' d' sp') Ht).
Qed.

(** X24.  A confirmation touches only the header stored under its own
    connection id and response type: the headers of other connections,
    and of other kinds of request for the same connection, stay where
    they are. *)
Theorem confirmation_leaves_other_headers (self : State ServiceParameters)
    (c : Confirmation ServiceParameters) (key : string * string) :
  key <> notification_key _ c ->
  notifications _ (snd (deliver _ provider_client self c)) !! key
  = notifications _ self !! key.
Proof.
  intros Hkey. rewrite deliver_confirm.
  destruct (notifications _ self !! notification_key _ c) as [h|] eqn:Hh.
  - rewrite (confirm_stored _ _ _ _ _ h Hh). cbn [notifications].
    apply lookup_delete_ne. congruence.
  - now rewrite (confirm_missing _ _ _ _ _ Hh).
Qed.

(** X25.  When the provider client raises on a confirmation, the header
    is consumed all the same, so the confirmation cannot be delivered
    again; a [KeyError] of the client is caught like a missing header
    and reported as success, any other exception is passed on. *)
Theorem confirmation_client_raises (self : State ServiceParameters)
    (c : Confirmation ServiceParameters) (h : Header) (e : Exn) :
  notifications _ self !! notification_key _ c = Some h ->
  provider_client (client_call_of _ c h) = Raise e ->
  fst (deliver _ provider_client self c)
  = match e with
    | KeyError _ => Ok (Succeeded None)
    | _ => Raise e
    end /\
  notifications _ (snd (deliver _ provider_client self c)) !! notification_key _ c = None /\
  deliver _ provider_client (snd (deliver _ provider_client self c)) c
  = (Ok (Succeeded None), snd (deliver _ provider_client self c)).
Proof.
  intros Hh He. rewrite !deliver_confirm.
  rewrite (confirm_stored _ _ _ _ _ h Hh).
  split; [|split].
  - unfold confirm, pop. rewrite Hh, He. destruct e; reflexivity.
  - cbn [notifications]. apply lookup_delete_eq.
  - apply confirm_missing. cbn [notifications]. apply lookup_delete_eq.
Qed.

(** X26.  Of two requests stored under the same connection id and
    response type only one is ever notified: if the second carries a
    reply address its header replaces the first, and if it carries none
    the header of the first stays and is the one its confirmation uses;
    a further confirmation calls nothing. *)
Theorem second_request_same_key (self : State ServiceParameters) (h1 h2 : Header)
    (c : Confirmation ServiceParameters) :
  truthy (reply_to h1) = true ->
  let key := notification_key _ c in
  let self2 := store_header _ (store_header _ self h1 key) h2 key in
  let self3 := snd (deliver _ provider_client self2 c) in
  client_calls _ self3
  = client_calls _ self
    ++ [client_call_of _ c (if truthy (reply_to h2) then h2 else h1)] /\
  deliver _ provider_client self3 c = (Ok (Succeeded None), self3).
Proof.
  intros Ht1 key self2 self3. subst key self2 self3.
  assert (Hlook : notifications _
                    (store_header _ (store_header _ self h1 (notification_key _ c)) h2
                       (notification_key _ c))
                    !! notification_key _ c
                  = Some (if truthy (reply_to h2) then h2 else h1)).
  { unfold store_header at 1. destruct (truthy (reply_to h2)).
    - cbn [notifications]. apply lookup_insert_eq.
    - now apply store_header_lookup. }
  rewrite !deliver_confirm. rewrite (confirm_stored _ _ _ _ _ _ Hlook).
  split.
  - cbn [client_calls]. unfold store_header. rewrite Ht1.
    destruct (truthy (reply_to h2)); reflexivity.
  - apply confirm_missing. cbn [notifications]. apply lookup_delete_eq.
Qed.

Lemma receive_measure (self : State ServiceParameters) (m : Message ServiceParameters) :
  (length (client_calls _ (receive _ provider_client service_provider self m))
   + size (notifications _ (receive _ provider_client service_provider self m))
   <= length (client_calls _ self) + size (notifications _ self)
      + (if asks_reply _ m then 1 else 0))%nat.
Proof.
  assert (Hstore : forall h key,
             (length (client_calls _ (store_header _ self h key))
              + size (notifications _ (store_header _ self h key))
              <= length (client_calls _ self) + size (notifications _ self)
                 + (if truthy (reply_to h) then 1 else 0))%nat).
  { intros h key. unfold store_header. destruct (truthy (reply_to h)); [|lia].
    cbn [notifications client_calls]. rewrite map_size_insert.
    destruct (notifications _ self !! key); simpl; lia. }
  destruct m as [h ocid g d sp|h cid|h cid|h cid|h cid|c]; cbn [receive asks_reply].
  - unfold reserve.
    destruct (service_provider _) as [[assigned|f]|e]; cbn [snd];
      [apply Hstore | destruct (truthy (reply_to h)); lia..].
  - apply Hstore.
  - apply Hstore.
  - simpl. lia.
  - apply Hstore.
  - rewrite deliver_confirm.
    destruct (notifications _ self !! notification_key _ c) as [h|] eqn:Hh.
    + rewrite (confirm_stored _ _ _ _ _ h Hh). cbn [notifications client_calls].
      rewrite length_app, map_size_delete, Hh. simpl.
      assert (size (notifications _ self) <> 0%nat).
      { intros Hz. apply map_size_empty_inv in Hz. rewrite Hz in Hh.
        rewrite lookup_empty in Hh. discriminate. }
      lia.
    + rewrite (confirm_missing _ _ _ _ _ Hh). simpl. lia.
Qed.

(** X27.  Over any sequence of requests and confirmations, the calls
    made on the provider client and the headers still stored together
    grow by at most one for each request that carried a reply address:
    starting from a new provider, the client is never called more often
    than replies were asked for. *)
Theorem client_calls_bounded (ms : list (Message ServiceParameters))
    (self : State ServiceParameters) :
  (length (client_calls _ (receive_all _ provider_client service_provider self ms))
   + size (notifications _ (receive_all _ provider_client service_provider self ms))
   <= length (client_calls _ self) + size (notifications _ self)
      + length (List.filter (asks_reply _) ms))%nat /\
  (length (client_calls _
             (receive_all _ provider_client service_provider (init _) ms))
   <= length (List.filter (asks_reply _) ms))%nat.
Proof.
  assert (H : forall ms self,
             (length (client_calls _
                        (receive_all _ provider_client service_provider self ms))
              + size (notifications _
                        (receive_all _ provider_client service_provider self ms))
              <= length (client_calls _ self) + size (notifications _ self)
                 + length (List.filter (asks_reply _) ms))%nat).
  { clear ms self. induction ms as [|m ms IH]; intros self; simpl; [lia|].
    specialize (IH (receive _ provider_client service_provider self m)).
    pose proof (receive_measure self m).
    unfold receive_all in *. simpl.
    destruct (asks_reply _ m); simpl; lia. }
  split; [apply H|].
  specialize (H ms (init _)). cbn [init client_calls notifications] in H.
  rewrite map_size_empty in H. simpl in H. lia.
Qed.

End Messages.

Lemma request_confirm_round_trip_witness :
  snd (deliver unit acknowledging_client
         (snd (provision_request unit (fun _ => Ok (Succeeded "c1"))
                 (init unit) requester_header "c1"))
         (ProvisionConfirmed unit (mkHeader None "" "" "") "c1"))
  = mkState unit (delete ("c1", PROVISION_RESPONSE) ∅)
      [client_provisionConfirmed unit (Some "http://requester.example/nsi")
         "corr-1" "urn:requester" "urn:provider" "c1"].
Proof.
  apply (request_confirm_round_trip unit acknowledging_client
           (fun _ => Ok (Succeeded "c1")) (init unit) requester_header
           (mkHeader None "" "" "") "c1" eq_refl).
Defined.

Lemma confirmation_leaves_other_headers_witness :
  notifications unit
    (snd (deliver unit acknowledging_client
            (terminate unit (init unit) requester_header "c1")
            (ProvisionConfirmed unit requester_header "c1")))
    !! ("c1", TERMINATE_RESPONSE)
  = Some requester_header.
Proof.
  rewrite (confirmation_leaves_other_headers unit acknowledging_client
             (terminate unit (init unit) requester_header "c1")
             (ProvisionConfirmed unit requester_header "c1")
             ("c1", TERMINATE_RESPONSE)).
  - apply lookup_insert_eq.
  - discriminate.
Defined.

Lemma confirmation_client_raises_witness :
  fst (deliver unit (fun _ => Raise (KeyError "reply_to"))
         (terminate unit (init unit) requester_header "c1")
         (TerminateConfirmed unit requester_header "c1"))
  = Ok (Succeeded None) /\
  fst (deliver unit (fun _ => Raise (OtherError "ConnectError" "refused"))
         (terminate unit (init unit) requester_header "c1")
         (TerminateConfirmed unit requester_header "c1"))
  = Raise (OtherError "ConnectError" "refused").
Proof.
  split.
  - apply (confirmation_client_raises unit (fun _ => Raise (KeyError "reply_to"))
             (terminate unit (init unit) requester_header "c1")
             (TerminateConfirmed unit requester_header "c1") requester_header
             (KeyError "reply_to")); [apply lookup_insert_eq | reflexivity].
  - apply (confirmation_client_raises unit
             (fun _ => Raise (OtherError "ConnectError" "refused"))
             (terminate unit (init unit) requester_header "c1")
             (TerminateConfirmed unit requester_header "c1") requester_header
             (OtherError "ConnectError" "refused")); [apply lookup_insert_eq | reflexivity].
Defined.

Lemma second_request_same_key_witness :
  client_calls unit
    (snd (deliver unit acknowledging_client
            (terminate unit (terminate unit (init unit) requester_header "c1")
               (mkHeader None "urn:other" "urn:provider" "corr-2") "c1")
            (TerminateConfirmed unit requester_header "c1")))
  = [client_terminateConfirmed unit (Some "http://requester.example/nsi")
       "urn:requester" "urn:provider" "corr-1" "c1"].
Proof.
  apply (second_request_same_key unit acknowledging_client (init unit) requester_header
           (mkHeader None "urn:other" "urn:provider" "corr-2")
           (TerminateConfirmed unit requester_header "c1") eq_refl).
Defined.

End ProviderExtras.
